(** * Patient cohort aggregation and patient record cleaning

    A shallow embedding of the two scripts of the repository,

    - [src/3_cohort_analysis.py]   (module [Cohort]), and
    - [src/patient_data_cleaner.py] (module [Cleaner]),

    followed by the properties proved about them.

    Numbers.  A numeric cell of a data frame and a finite JSON number with
    a fraction are binary floating-point numbers; each of them is a
    rational, and it is modelled by that rational ([Q]).  The constants
    the code compares against (10, 18.5, 25, 30, 60, 18) are exactly
    representable, so every comparison of the code is the comparison of
    the rationals.  The infinities and the NaNs that a JSON source can
    hold are values of the record cleaner of their own.

    The library.  What the data-frame library brings and the repository
    does not contain is a parameter of the model ([Engine]): the
    floating-point mean of a column, the order in which a grouping lists
    its groups, the type the reader of delimited text gives to a column,
    and the failure reported for a plan that fails for several reasons.
    The same holds for the Unicode tables and the integer parser of the
    interpreter ([Interpreter]). *)

From Stdlib Require Import QArith ZArith NArith Lqa.
From Stdlib Require Import Sorting.Permutation Sorting.Sorted.
From stdpp Require Import gmap strings list.

(** Outcome of a call that may raise. *)
Inductive result (E A : Type) : Type :=
| Ok (a : A)
| Err (e : E).
Arguments Ok {E A} a.
Arguments Err {E A} e.

(* ===================================================================== *)
(** * The cohort aggregator *)
(* ===================================================================== *)

Module Cohort.

Local Open Scope Q_scope.

(** A cell is a number or null. *)
Definition cell : Type := option Q.

(** A row of the table: the cells under the three column names the query
    reads.  The other columns of the file, which the projection of line 30
    drops, are not represented. *)
Record Row : Type := mkRow { BMI : cell; Glucose : cell; Age : cell }.

(** A data frame: the names of its columns and its rows, a cell being
    empty or a number as the text of the file has it.  When a name among
    BMI, Glucose, Age is missing from [columns], the corresponding field
    of the rows is meaningless; when the reader gives the column the type
    String, its cells are text.  In both cases the query fails before
    reading a cell of the column (see [collect]). *)
Record DataFrame : Type := mkFrame { columns : list string; rows : list Row }.

(** One row of the result. *)
Record Aggregate : Type := mkAggregate {
  bmi_range : string;
  avg_glucose : cell;
  patient_count : nat;
  avg_age : cell
}.

(** ** Expressions

    A comparison with a literal is null on a null cell; [&] is the
    three-valued conjunction; [filter] keeps the rows whose predicate is
    true, and [when] takes a null condition for false. *)

Definition ge_lit (c : cell) (k : Q) : option bool :=
  match c with Some x => Some (Qle_bool k x) | None => None end.

Definition le_lit (c : cell) (k : Q) : option bool :=
  match c with Some x => Some (Qle_bool x k) | None => None end.

Definition lt_lit (c : cell) (k : Q) : option bool :=
  match c with Some x => Some (negb (Qle_bool k x)) | None => None end.

Definition and_expr (a b : option bool) : option bool :=
  match a, b with
  | Some false, _ => Some false
  | _, Some false => Some false
  | Some true, Some true => Some true
  | _, _ => None
  end.

Definition is_true (m : option bool) : bool :=
  match m with Some true => true | _ => false end.

(** Line 28: [(pl.col("BMI") >= 10) & (pl.col("BMI") <= 60)]. *)
Definition bmi_in_bounds (r : Row) : bool :=
  is_true (and_expr (ge_lit (BMI r) 10) (le_lit (BMI r) 60)).

Definition filter_bmi (rs : list Row) : list Row :=
  List.filter bmi_in_bounds rs.

(** Line 30: the projection on the columns BMI, Glucose, Age. *)
Definition select_columns (rs : list Row) : list Row :=
  map (fun r => mkRow (BMI r) (Glucose r) (Age r)) rs.

(** Lines 33-40: the [when / then / otherwise] chain. *)
Definition bmi_range_of (c : cell) : string :=
  if is_true (lt_lit c 18.5) then "Underweight"
  else if is_true (lt_lit c 25) then "Normal"
  else if is_true (lt_lit c 30) then "Overweight"
  else "Obese".

(** Lines 32-41: [with_columns] adds the label to every row. *)
Definition with_bmi_range (rs : list Row) : list (Row * string) :=
  map (fun r => (r, bmi_range_of (BMI r))) rs.

(** ** The library

    The exceptions of the library and of the code. *)
Inductive error : Type :=
| FileNotFoundError (path : string)
| ComputeError
| InvalidOperationError
| ColumnNotFoundError (name : string).

Definition non_null (s : list cell) : list Q := omap id s.

(** What the library brings:

    - [f64_mean xs]: the result of [mean()] on the numbers [xs] of a
      column, in the order of the rows: a 64-bit float, computed in
      floating-point arithmetic;
    - [group_order gs]: the groups [gs] in the order in which [group_by]
      lists them, which the library does not fix;
    - [is_string c]: [read_csv] gives the column with the cells [c] the
      type String and not a numeric type.  It does so for a column
      without any number, as every column of a file that has only the
      header line; it does not for a column whose first row holds a
      number;
    - [first_failure e es]: the failure that [collect()] reports for a
      plan with the failures [e :: es]. *)
Class Engine : Type := {
  f64_mean : list Q -> Q;
  group_order : list (string * list Row) -> list (string * list Row);
  group_order_perm : forall gs, Permutation (group_order gs) gs;
  is_string : list cell -> bool;
  string_when_empty : forall c, non_null c = [] -> is_string c = true;
  numeric_when_first : forall x c, is_string (Some x :: c) = false;
  first_failure : error -> list error -> error;
  first_failure_elem : forall e es, first_failure e es ∈ e :: es
}.

Section WithEngine.
Context {engine : Engine}.

(** ** Grouping

    [group_by] partitions the rows by key: a row joins the group of its
    key, or opens a new group; the groups come in the order of the
    library. *)

Fixpoint add_to_group (k : string) (r : Row)
    (gs : list (string * list Row)) : list (string * list Row) :=
  match gs with
  | [] => [(k, [r])]
  | (k', members) :: gs' =>
      if String.eqb k k' then (k', members ++ [r]) :: gs'
      else (k', members) :: add_to_group k r gs'
  end.

Definition partition_by (rs : list (Row * string))
    : list (string * list Row) :=
  fold_left (fun gs rk => add_to_group (snd rk) (fst rk) gs) rs [].

Definition group_by (rs : list (Row * string)) : list (string * list Row) :=
  group_order (partition_by rs).

(** ** Aggregation *)

(** [mean] skips the nulls and is null when nothing is left. *)
Definition mean (s : list cell) : cell :=
  match non_null s with
  | [] => None
  | xs => Some (f64_mean xs)
  end.

(** Lines 43-47. *)
Definition agg (g : string * list Row) : Aggregate :=
  {| bmi_range := fst g;
     avg_glucose := mean (map Glucose (snd g));
     patient_count := length (snd g);
     avg_age := mean (map Age (snd g)) |}.

(** Lines 27-48 on the rows of a frame that has the three columns, each
    of a numeric type. *)
Definition cohort_query (rs : list Row) : list Aggregate :=
  map agg (group_by (with_bmi_range (select_columns (filter_bmi rs)))).

(** ** Vocabulary of the statements *)

(** The BMI of the row is a number of the closed interval [10, 60]. *)
Definition in_closed_10_60 (r : Row) : bool :=
  match BMI r with
  | Some b => Qle_bool 10 b && Qle_bool b 60
  | None => false
  end.

(** The rows of [rs] within the interval and labelled [k]. *)
Definition members (k : string) (rs : list Row) : list Row :=
  List.filter
    (fun r => in_closed_10_60 r && String.eqb (bmi_range_of (BMI r)) k) rs.

(** The numbers of a column over a list of rows, nulls left out. *)
Definition values (column : Row -> cell) (rs : list Row) : list Q :=
  non_null (map column rs).



(** The rows of a labelled list under the label [k]. *)
Definition rows_with (k : string) (lrs : list (Row * string)) : list Row :=
  map fst (List.filter (fun x => String.eqb (snd x) k) lrs).

(** [gs] groups the labelled rows [lrs]: one group per label, every label
    of [lrs] has its group, and a group holds the rows under its label,
    in their order. *)
Definition groups_of (lrs : list (Row * string))
    (gs : list (string * list Row)) : Prop :=
  NoDup (map fst gs) /\
  (forall x, x ∈ lrs -> snd x ∈ map fst gs) /\
  (forall k ms, (k, ms) ∈ gs -> ms = rows_with k lrs /\ ms <> []).

(** ** Files and failures *)

(** What a path holds: delimited text that [read_csv] reads, given by the
    names of its columns and its rows, a Parquet file holding a frame, or
    anything else. *)
Inductive file : Type :=
| CsvFile (df : DataFrame)
| ParquetFile (df : DataFrame)
| OtherFile.

Definition parquet_file : string := "patients_large.parquet".

Definition read_csv (path : string) (disk : gmap string file)
    : result error DataFrame :=
  match disk !! path with
  | Some (CsvFile df) => Ok df
  | Some _ => Err ComputeError
  | None => Err (FileNotFoundError path)
  end.

Definition write_parquet (path : string) (df : DataFrame)
    (disk : gmap string file) : gmap string file :=
  <[path := ParquetFile df]> disk.

Definition scan_parquet (path : string) (disk : gmap string file)
    : result error DataFrame :=
  match disk !! path with
  | Some (ParquetFile df) => Ok df
  | Some _ => Err ComputeError
  | None => Err (FileNotFoundError path)
  end.

Definition has_column (name : string) (df : DataFrame) : bool :=
  existsb (String.eqb name) (columns df).

(** The type of a column of the frame is numeric. *)
Definition numeric (column : Row -> cell) (df : DataFrame) : bool :=
  negb (is_string (map column (rows df))).

(** What is wrong with a column the plan uses: the frame lacks it, or it
    is of type String and the plan applies to it an operation that
    strings do not have. *)
Definition column_failure (name : string) (column : Row -> cell)
    (unsupported : error) (df : DataFrame) : list error :=
  if negb (has_column name df) then [ColumnNotFoundError name]
  else if negb (numeric column df) then [unsupported]
  else [].

(** The failures of the plan of lines 27-48 on a frame: the comparison
    of BMI with a number (line 28), and the means of Glucose and Age
    (lines 44 and 46). *)
Definition plan_failures (df : DataFrame) : list error :=
  column_failure "BMI" BMI ComputeError df
    ++ column_failure "Glucose" Glucose InvalidOperationError df
    ++ column_failure "Age" Age InvalidOperationError df.

(** [collect] runs the lazy query: a failure of the plan is reported
    here, before any row is read. *)
Definition collect (df : DataFrame) : result error (list Aggregate) :=
  match plan_failures df with
  | [] => Ok (cohort_query (rows df))
  | e :: es => Err (first_failure e es)
  end.

(** [os.path.exists] and [os.remove]. *)
Definition exists_path (path : string) (disk : gmap string file) : bool :=
  bool_decide (is_Some (disk !! path)).

Definition remove (path : string) (disk : gmap string file)
    : gmap string file :=
  delete path disk.

(** Lines 4-54.  The disk is threaded through; a raised exception leaves
    the function at once with the disk as it is at that point. *)
Definition analyze_patient_cohorts (input_file : string)
    (disk : gmap string file)
    : gmap string file * result error (list Aggregate) :=
  if negb (exists_path input_file disk) then
    (disk, Err (FileNotFoundError input_file))
  else
    match read_csv input_file disk with
    | Err e => (disk, Err e)
    | Ok df =>
        let disk1 := write_parquet parquet_file df disk in
        match scan_parquet parquet_file disk1 with
        | Err e => (disk1, Err e)
        | Ok lazy =>
            match collect lazy with
            | Err e => (disk1, Err e)
            | Ok cohort_results =>
                let disk2 :=
                  if exists_path parquet_file disk1
                  then remove parquet_file disk1 else disk1 in
                (disk2, Ok cohort_results)
            end
        end
    end.

End WithEngine.

(** ** Sample data *)

(** A file with the columns Glucose and Age but no BMI column. *)
Definition no_bmi_frame : DataFrame :=
  mkFrame ["Glucose"; "Age"] [mkRow None (Some 100) (Some 20)].

Definition no_bmi_disk : gmap string file :=
  {[ "patients_large.csv" := CsvFile no_bmi_frame ]}.

(** The three rows of the end-to-end example, and one row out of bounds. *)
Definition three_rows : list Row :=
  [ mkRow (Some 17) (Some 100) (Some 20);
    mkRow (Some 22) (Some 120) (Some 30);
    mkRow (Some 35) (Some 140) (Some 40);
    mkRow (Some 61) (Some 90) (Some 50) ].


(** ** [main]

    A line of the output is a call of [print] with the values it
    formats; the layout of a number in the text is not modelled. *)

(** What leaves the [try] block: an exception of the analysis, or the
    TypeError of a format with digits applied to [None]. *)
Inductive failure : Type :=
| Raised (e : error)
| FormatTypeError.

Inductive line : Type :=
| Summary
| Table (results : list Aggregate)
| TotalPatients (n : nat)
| DetailedResults
| BMIRange (label : string)
| AverageGlucose (q : Q)
| PatientCount (n : nat)
| AverageAge (q : Q)
| Blank
| NotFound (e : error)
| PleaseEnsure
| AnalysisError (f : failure).

(** [results.sort("bmi_range")]: the rows by ascending label, labels
    compared as strings.  The labels of a result differ, so the order of
    rows with one label plays no part. *)
Fixpoint insert_by_label (g : Aggregate) (l : list Aggregate)
    : list Aggregate :=
  match l with
  | [] => [g]
  | g' :: l' =>
      if String.ltb (bmi_range g') (bmi_range g)
      then g' :: insert_by_label g l' else g :: l
  end.

Definition sort_by_label (l : list Aggregate) : list Aggregate :=
  fold_right insert_by_label [] l.

(** Lines 79-84: the lines printed for the rows, and the failure that
    ended the loop, if any.  A null average is [None] in the row, and
    formatting it with digits raises. *)
Fixpoint print_rows (sorted_results : list Aggregate)
    : list line * option failure :=
  match sorted_results with
  | [] => ([], None)
  | row :: rest =>
      match avg_glucose row with
      | None => ([BMIRange (bmi_range row)], Some FormatTypeError)
      | Some glucose =>
          match avg_age row with
          | None =>
              ([BMIRange (bmi_range row); AverageGlucose glucose;
                PatientCount (patient_count row)], Some FormatTypeError)
          | Some age =>
              let (lines, failed) := print_rows rest in
              ([BMIRange (bmi_range row); AverageGlucose glucose;
                PatientCount (patient_count row); AverageAge age; Blank]
                 ++ lines, failed)
          end
      end
  end.

Section Report.
Context {engine : Engine}.

(** Lines 56-90.  Both handlers print and return. *)
Definition main (disk : gmap string file) : gmap string file * list line :=
  let input_file := "patients_large.csv" in
  match analyze_patient_cohorts input_file disk with
  | (disk', Ok results) =>
      let total_patients := sum_list (map patient_count results) in
      let sorted_results := sort_by_label results in
      let (lines, failed) := print_rows sorted_results in
      (disk',
       [Summary; Table results; TotalPatients total_patients; DetailedResults]
         ++ lines
         ++ match failed with
            | Some f => [AnalysisError f]
            | None => []
            end)
  | (disk', Err (FileNotFoundError path)) =>
      (disk', [NotFound (FileNotFoundError path); PleaseEnsure])
  | (disk', Err e) => (disk', [AnalysisError (Raised e)])
  end.

End Report.

(** The labels of the lines [BMI Range: ...], in the order of the
    output. *)
Definition labels_printed (lines : list line) : list string :=
  omap (fun ln => match ln with BMIRange k => Some k | _ => None end) lines.

(** A file with the three columns, holding [three_rows]. *)
Definition good_frame : DataFrame :=
  mkFrame ["BMI"; "Glucose"; "Age"] three_rows.

Definition good_disk : gmap string file :=
  {[ "patients_large.csv" := CsvFile good_frame ]}.

(** A file in which the rows of the label Normal have no Glucose value. *)
Definition null_glucose_frame : DataFrame :=
  mkFrame ["BMI"; "Glucose"; "Age"]
    [ mkRow (Some 35) (Some 140) (Some 40);
      mkRow (Some 22) None (Some 30) ].

Definition null_glucose_disk : gmap string file :=
  {[ "patients_large.csv" := CsvFile null_glucose_frame ]}.

(** A file with the header line only, and a file whose Glucose column is
    empty in its only row. *)
Definition header_only_frame : DataFrame :=
  mkFrame ["BMI"; "Glucose"; "Age"] [].

Definition empty_glucose_frame : DataFrame :=
  mkFrame ["BMI"; "Glucose"; "Age"] [mkRow (Some 22) None (Some 30)].

Definition empty_glucose_disk : gmap string file :=
  {[ "patients_large.csv" := CsvFile empty_glucose_frame ]}.

(** ** A sample engine

    Floating-point arithmetic on 64 bits, for results in the normal
    range: the result of an operation is the float nearest to the exact
    result, the one with the even significand when two are as near.  The
    mean adds the numbers from first to last and divides the sum by
    their count.  The groups come by first appearance, a column is of
    type String when none of its first hundred rows holds a number, and
    the failure reported is the first of the plan. *)

(** The float nearest to the positive rational [n / d]: its significand
    [m], an integer from [2^52] to [2^53], times a power of two. *)
Definition round_pos (n d : positive) : Q :=
  let scaled (e : Z) : Z * Z :=
    if (0 <=? e)%Z then (Z.pos n, Z.pos d * 2 ^ e)%Z
    else (Z.pos n * 2 ^ (- e), Z.pos d)%Z in
  let e0 := (Z.log2 (Z.pos n) - Z.log2 (Z.pos d) - 52)%Z in
  let e := if (fst (scaled e0) / snd (scaled e0) <? 2 ^ 52)%Z
           then (e0 - 1)%Z else e0 in
  let '(a, b) := scaled e in
  let m := (a / b)%Z in
  let r := (a mod b)%Z in
  let m' := if (2 * r <? b)%Z then m
            else if (b <? 2 * r)%Z then (m + 1)%Z
            else if Z.even m then m else (m + 1)%Z in
  Qred (if (0 <=? e)%Z then inject_Z (m' * 2 ^ e)
        else Qmake m' (Z.to_pos (2 ^ (- e)))).

Definition round_f64 (q : Q) : Q :=
  match Qnum q with
  | Z0 => 0
  | Z.pos n => round_pos n (Qden q)
  | Z.neg n => - round_pos n (Qden q)
  end.

Definition f64_add (x y : Q) : Q := round_f64 (x + y).
Definition f64_div (x y : Q) : Q := round_f64 (x / y).

Definition sequential_mean (xs : list Q) : Q :=
  f64_div (fold_left f64_add (map round_f64 xs) 0)
          (inject_Z (Z.of_nat (length xs))).

Definition early_string (c : list cell) : bool :=
  match non_null (take 100 c) with [] => true | _ => false end.

Lemma early_string_empty (c : list cell) :
  non_null c = [] -> early_string c = true.
Proof.
  unfold early_string, non_null. intros H.
  rewrite <- (take_drop 100 c), omap_app in H.
  apply app_eq_nil in H as [-> _]. reflexivity.
Qed.

Definition sample_engine : Engine := {|
  f64_mean := sequential_mean;
  group_order gs := gs;
  group_order_perm gs := Permutation_refl gs;
  is_string := early_string;
  string_when_empty := early_string_empty;
  numeric_when_first x c := eq_refl;
  first_failure e es := e;
  first_failure_elem e es := list_elem_of_here e es
|}.


End Cohort.


(* ===================================================================== *)
(** * The record cleaner *)
(* ===================================================================== *)

Module Cleaner.

(** A string is the sequence of its code points. *)
Definition pystr : Type := list N.

(** The string of an ASCII literal. *)
Definition py (s : string) : pystr :=
  map Ascii.N_of_ascii (String.list_ascii_of_string s).

(** Values as [json.load] builds them.  A float is finite, and then it is
    given by the rational it denotes, or an infinity ([1e999],
    [Infinity], [-Infinity]), or a NaN.  A NaN is given with the float
    object it is, since membership in a set takes an object for equal to
    itself while [==] takes a NaN for different from every float;
    [json.load] makes one and the same object of every literal [NaN]. *)
#[local] Set Warnings "-register-all".
Inductive value : Type :=
| VNull
| VBool (b : bool)
| VInt (z : Z)
| VFloat (q : Q)
| VInf (negative : bool)
| VNaN (object : nat)
| VStr (s : pystr)
| VList (elements : list value)
| VDict (fields : list (pystr * value)).

#[local] Set Warnings "register-all".

Definition item : Type := pystr * value.

(** A dict: its items in insertion order, the keys pairwise distinct. *)
Definition dict : Type := list item.

(** The store of dict objects; a reference is an index into it.  Two
    equal references are the same object. *)
Definition ref : Type := nat.
Definition heap : Type := list dict.

(** The exceptions of the code; [SystemError] stands for a reference
    outside the store, which no run produces. *)
Inductive exn : Type :=
| KeyError (k : pystr)
| AttributeError
| TypeError
| ValueError
| OverflowError
| SystemError.

(** What the interpreter brings and the repository does not contain: the
    case data of the Unicode character database and the parser of decimal
    integer literals.  They are parameters of the model.

    - [is_cased c]: [c] is a cased character;
    - [to_title_full c]: the title-case mapping of [c], one to three
      code points;
    - [lower_ucs4 data i c]: the lower-case mapping of the character [c]
      at index [i] of [data] (the context decides a final sigma);
    - [int_of_str s]: the integer [int(s)] reads in [s], if any. *)
Class Interpreter : Type := {
  is_cased : N -> bool;
  to_title_full : N -> pystr;
  lower_ucs4 : pystr -> nat -> N -> pystr;
  int_of_str : pystr -> option Z
}.

Section WithInterpreter.
Context {rt : Interpreter}.

(** ** [str.title]

    Each character is mapped to lower case when the character before it
    in the source string is cased, and to title case otherwise. *)
Fixpoint do_title (data : pystr) (i : nat) (rest : pystr)
    (previous_is_cased : bool) : pystr :=
  match rest with
  | [] => []
  | c :: rest' =>
      (if previous_is_cased then lower_ucs4 data i c else to_title_full c)
        ++ do_title data (S i) rest' (is_cased c)
  end.

Definition title (s : pystr) : pystr := do_title s 0 s false.

(** ** [int] *)

(** [int] of a finite float drops the fraction, towards zero; an infinity
    and a NaN have no integer. *)
Definition truncate (q : Q) : Z := Z.quot (Qnum q) (Zpos (Qden q)).

Definition py_int (v : value) : result exn Z :=
  match v with
  | VInt z => Ok z
  | VBool b => Ok (if b then 1 else 0)%Z
  | VFloat q => Ok (truncate q)
  | VInf _ => Err OverflowError
  | VNaN _ => Err ValueError
  | VStr s =>
      match int_of_str s with
      | Some z => Ok z
      | None => Err ValueError
      end
  | VNull | VList _ | VDict _ => Err TypeError
  end.

(** ** Dicts *)

Fixpoint dict_get (k : pystr) (d : dict) : option value :=
  match d with
  | [] => None
  | (k', v) :: d' => if bool_decide (k = k') then Some v else dict_get k d'
  end.

(** [d[k] = v]: an existing key keeps its place, a new one goes last. *)
Fixpoint dict_set (k : pystr) (v : value) (d : dict) : dict :=
  match d with
  | [] => [(k, v)]
  | (k', v') :: d' =>
      if bool_decide (k = k') then (k', v) :: d'
      else (k', v') :: dict_set k v d'
  end.

(** ** [sorted(patient.items())]

    Strings compare by code points, lexicographically.  The keys of one
    dict differ, so the comparison of two of its items is decided by the
    keys and never reaches the values. *)
Fixpoint str_ltb (a b : pystr) : bool :=
  match a, b with
  | _, [] => false
  | [], _ :: _ => true
  | x :: a', y :: b' =>
      if (x <? y)%N then true
      else if (y <? x)%N then false
      else str_ltb a' b'
  end.

Definition item_ltb (a b : item) : bool := str_ltb (fst a) (fst b).

(** A stable sort that only asks [<], as [sorted] does. *)
Fixpoint insert_sorted (x : item) (l : list item) : list item :=
  match l with
  | [] => [x]
  | y :: l' => if item_ltb y x then y :: insert_sorted x l' else x :: l
  end.

Definition sorted (l : list item) : list item :=
  fold_right insert_sorted [] l.

(** ** Hashing and equality of the tuples kept in [seen] *)

Definition hashable (v : value) : bool :=
  match v with
  | VList _ | VDict _ => false
  | _ => true
  end.

Definition as_number (v : value) : option Q :=
  match v with
  | VBool b => Some (if b then 1 else 0)%Q
  | VInt z => Some (inject_Z z)
  | VFloat q => Some q
  | _ => None
  end.

(** Equality of two hashable values as the lookup in a set decides it,
    the same object or [==]: finite numbers (booleans included) by
    value, strings by content, [None] with itself, an infinity with the
    infinity of its sign, and a NaN with the same object only.  Lists and
    dicts never get here. *)
Definition py_eq (v w : value) : bool :=
  match as_number v, as_number w with
  | Some a, Some b => Qeq_bool a b
  | None, None =>
      match v, w with
      | VNull, VNull => true
      | VStr s, VStr t => bool_decide (s = t)
      | VInf a, VInf b => Bool.eqb a b
      | VNaN i, VNaN j => bool_decide (i = j)
      | _, _ => false
      end
  | _, _ => false
  end.

Fixpoint tuple_eq (t u : list item) : bool :=
  match t, u with
  | [], [] => true
  | (k, v) :: t', (k', w) :: u' =>
      bool_decide (k = k') && py_eq v w && tuple_eq t' u'
  | _, _ => false
  end.

(** [t in seen]: hashing [t] fails on an unhashable field. *)
Definition contains (seen : list (list item)) (t : list item)
    : result exn bool :=
  if forallb (fun kv => hashable (snd kv)) t
  then Ok (existsb (tuple_eq t) seen)
  else Err TypeError.

(** ** Statements

    A statement runs on the store and leaves a value or an exception. *)
Definition M (A : Type) : Type := heap -> heap * result exn A.

Definition ret {A} (a : A) : M A := fun h => (h, Ok a).

Definition raise {A} (e : exn) : M A := fun h => (h, Err e).

Definition bind {A B} (m : M A) (f : A -> M B) : M B :=
  fun h =>
    match m h with
    | (h', Ok a) => f a h'
    | (h', Err e) => (h', Err e)
    end.

Notation "x <- m ;; k" := (bind m (fun x => k))
  (at level 100, m at next level, right associativity).
Notation "m ;; k" := (bind m (fun _ => k))
  (at level 100, right associativity).

Definition lift {A} (r : result exn A) : M A := fun h => (h, r).

(** [patient[k]] *)
Definition getitem (p : ref) (k : pystr) : M value :=
  fun h =>
    match h !! p with
    | None => (h, Err SystemError)
    | Some d =>
        match dict_get k d with
        | Some v => (h, Ok v)
        | None => (h, Err (KeyError k))
        end
    end.

(** [patient.get(k, default)] *)
Definition get (p : ref) (k : pystr) (default : value) : M value :=
  fun h =>
    match h !! p with
    | None => (h, Err SystemError)
    | Some d =>
        match dict_get k d with
        | Some v => (h, Ok v)
        | None => (h, Ok default)
        end
    end.

(** [patient[k] = v], in place. *)
Definition setitem (p : ref) (k : pystr) (v : value) : M unit :=
  fun h =>
    match h !! p with
    | None => (h, Err SystemError)
    | Some d => (<[p := dict_set k v d]> h, Ok tt)
    end.

(** [patient.items()] *)
Definition items (p : ref) : M (list item) :=
  fun h =>
    match h !! p with
    | None => (h, Err SystemError)
    | Some d => (h, Ok d)
    end.

(** [v.title()]: only a string has the method. *)
Definition call_title (v : value) : M value :=
  match v with
  | VStr s => ret (VStr (title s))
  | _ => raise AttributeError
  end.

(** ** [clean_patient_data] *)

(** The locals of the loop: [seen] and [cleaned_patients]. *)
Definition locals : Type := list (list item) * list ref.

(** Lines 83-103, one turn of the loop.  The test of line 97 reads back
    the integer that line 89 has just stored. *)
Definition loop_body (patient : ref) (l : locals) : M locals :=
  let '(seen, cleaned_patients) := l in
  name <- getitem patient (py "name") ;;
  name' <- call_title name ;;
  setitem patient (py "name") name' ;;
  age <- get patient (py "age") (VInt 0) ;;
  n <- lift (py_int age) ;;
  setitem patient (py "age") (VInt n) ;;
  if (18 <=? n)%Z then
    its <- items patient ;;
    let patient_tuple := sorted its in
    known <- lift (contains seen patient_tuple) ;;
    if known then ret (seen, cleaned_patients)
    else ret (patient_tuple :: seen, cleaned_patients ++ [patient])
  else ret (seen, cleaned_patients).

(** Line 82. *)
Fixpoint for_each (patients : list ref) (l : locals) : M locals :=
  match patients with
  | [] => ret l
  | patient :: rest => l' <- loop_body patient l ;; for_each rest l'
  end.

(** Lines 79-110. *)
Definition clean_patient_data (patients : list ref) : M (list ref) :=
  l <- for_each patients ([], []) ;;
  let cleaned_patients := snd l in
  match cleaned_patients with
  | [] => ret []
  | _ => ret cleaned_patients
  end.

(** ** Vocabulary of the statements *)

(** The age of a record, coerced as line 89 does: the value under the key,
    or 0 when the key is absent, through [int]. *)
Definition coerced_age (d : dict) : result exn Z :=
  py_int (default (VInt 0) (dict_get (py "age") d)).

(** Lines 85 and 89 on the fields of one record: the cleaned record and
    its age. *)
Definition normalize (d : dict) : result exn (dict * Z) :=
  match dict_get (py "name") d with
  | None => Err (KeyError (py "name"))
  | Some (VStr s) =>
      let d1 := dict_set (py "name") (VStr (title s)) d in
      match coerced_age d1 with
      | Ok n => Ok (dict_set (py "age") (VInt n) d1, n)
      | Err e => Err e
      end
  | Some _ => Err AttributeError
  end.

(** The age field of a cleaned record is an integer of 18 or more. *)
Definition adult (d : dict) : Prop :=
  exists n, dict_get (py "age") d = Some (VInt n) /\ (18 <= n)%Z.

(** Two records have the same keys, and under each key values that the
    lookup in [seen] takes for equal ([py_eq]); the order of the fields
    plays no part. *)
Definition same_fields (d1 d2 : dict) : Prop :=
  forall k,
    match dict_get k d1, dict_get k d2 with
    | Some v, Some w => py_eq v w = true
    | None, None => True
    | _, _ => False
    end.

(** The references the loop appends, given the cleaned record and the age
    of each reference. *)
Fixpoint firsts (seen : list (list item)) (xs : list (ref * (dict * Z)))
    : list ref :=
  match xs with
  | [] => []
  | (l, (d, n)) :: xs' =>
      if (18 <=? n)%Z && negb (existsb (tuple_eq (sorted d)) seen)
      then l :: firsts (sorted d :: seen) xs'
      else firsts seen xs'
  end.

End WithInterpreter.

(** ** The script: [load_patient_data] and [main] *)

Section Script.
Context {rt : Interpreter}.

(** What a path holds: JSON text, given by the document it denotes (an
    object by its members in the order of the text), or anything else. *)
Inductive json_file : Type :=
| JsonText (document : value)
| NotJson.

(** What can leave the script: an exception of the cleaning, the error of
    [json.load] on text that is no JSON, or [sys.exit]. *)
Inductive script_exn : Type :=
| Exn (e : exn)
| JSONDecodeError
| SystemExit (status : Z).

(** A line of the output: a fixed text, or the line of a patient with the
    three values it formats. *)
Inductive script_line : Type :=
| Msg (text : string)
| PatientLine (name age diagnosis : value).

(** The dict [json.load] builds from the members of an object: a key
    that comes twice keeps its first place and its last value. *)
Definition to_dict (members : list (pystr * value)) : dict :=
  fold_left (fun d kv => dict_set (fst kv) (snd kv) d) members [].

(** An element of a loaded list: a dict object of the store, or another
    value.  What is loaded: a list, or another value. *)
Inductive element : Type :=
| Obj (r : ref)
| Atom (v : value).

Inductive loaded : Type :=
| LList (elements : list element)
| LOther (v : value).

(** The objects of an array are created in the store, in order. *)
Fixpoint allocate (vs : list value) (h : heap) : heap * list element :=
  match vs with
  | [] => (h, [])
  | VDict members :: vs' =>
      let (h', es) := allocate vs' (h ++ [to_dict members]) in
      (h', Obj (length h) :: es)
  | v :: vs' =>
      let (h', es) := allocate vs' h in
      (h', Atom v :: es)
  end.

(** The references of the dict objects among the elements. *)
Definition objects (es : list element) : list ref :=
  omap (fun e => match e with Obj r => Some r | Atom _ => None end) es.

(** Lines 46-63.  Only the missing file is handled. *)
Definition load_patient_data (filepath : string)
    (disk : gmap string json_file) (h : heap)
    : heap * list script_line * result script_exn loaded :=
  match disk !! filepath with
  | None => (h, [Msg "File not found!"], Err (SystemExit 1))
  | Some NotJson => (h, [], Err JSONDecodeError)
  | Some (JsonText (VList vs)) =>
      let (h', es) := allocate vs h in (h', [], Ok (LList es))
  | Some (JsonText v) => (h, [], Ok (LOther v))
  end.

(** [not v] *)
Definition falsy (v : value) : bool :=
  match v with
  | VNull => true
  | VBool b => negb b
  | VInt z => (z =? 0)%Z
  | VFloat q => Qeq_bool q 0
  | VInf _ | VNaN _ => false
  | VStr s => match s with [] => true | _ => false end
  | VList l => match l with [] => true | _ => false end
  | VDict f => match f with [] => true | _ => false end
  end.

Definition not_loaded (patients : loaded) : bool :=
  match patients with
  | LList [] => true
  | LList _ => false
  | LOther v => falsy v
  end.

(** The dict objects a list starts with. *)
Fixpoint leading_objects (es : list element) : list ref :=
  match es with
  | Obj r :: es' => r :: leading_objects es'
  | _ => []
  end.

(** [clean_patient_data(patients)] on what was loaded.  The loop cleans
    the dict objects the list starts with; an element that is no dict
    raises a TypeError at [patient['name']], as do the characters of a
    string and the keys of a dict, and a number, a boolean or [None]
    cannot be iterated. *)
Definition call_clean (patients : loaded) : M (list ref) :=
  match patients with
  | LList es =>
      bind (clean_patient_data (leading_objects es))
        (fun cleaned =>
           if (length (leading_objects es) =? length es)%nat
           then ret cleaned else raise TypeError)
  | LOther (VStr []) => ret []
  | LOther (VDict []) => ret []
  | LOther _ => raise TypeError
  end.

(** Lines 138-141: the lines printed, and the exception that ended the
    loop, if any.  The f-string reads name, age and diagnosis in turn. *)
Fixpoint print_patients (cleaned : list ref) (h : heap)
    : list script_line * option exn :=
  match cleaned with
  | [] => ([], None)
  | p :: rest =>
      match h !! p with
      | None => ([], Some SystemError)
      | Some d =>
          match dict_get (py "name") d with
          | None => ([], Some (KeyError (py "name")))
          | Some name =>
              match dict_get (py "age") d with
              | None => ([], Some (KeyError (py "age")))
              | Some age =>
                  match dict_get (py "diagnosis") d with
                  | None => ([], Some (KeyError (py "diagnosis")))
                  | Some diagnosis =>
                      let (lines, failed) := print_patients rest h in
                      (PatientLine name age diagnosis :: lines, failed)
                  end
              end
          end
      end
  end.

(** Lines 112-144.  [data_path] is the path of data/raw/patients.json
    beside the script. *)
Definition main (data_path : string) (disk : gmap string json_file)
    (h : heap) : heap * list script_line * result script_exn (list ref) :=
  match load_patient_data data_path disk h with
  | (h1, printed, Err e) => (h1, printed, Err e)
  | (h1, printed, Ok patients) =>
      if not_loaded patients then
        (h1, printed ++ [Msg "No patient data loaded."], Ok [])
      else
        match call_clean patients h1 with
        | (h2, Err e) => (h2, printed, Err (Exn e))
        | (h2, Ok []) =>
            (h2,
             printed ++ [Msg "No patients meet the criteria after cleaning."],
             Ok [])
        | (h2, Ok cleaned_patients) =>
            let (lines, failed) := print_patients cleaned_patients h2 in
            (h2, printed ++ [Msg "Cleaned Patient Data:"] ++ lines,
             match failed with
             | Some e => Err (Exn e)
             | None => Ok cleaned_patients
             end)
        end
  end.

End Script.

(** ** ASCII

    The case mappings of the first 128 code points, the same in every
    version of the character database. *)

Definition ascii_upper_p (c : N) : bool := ((65 <=? c) && (c <=? 90))%N.
Definition ascii_lower_p (c : N) : bool := ((97 <=? c) && (c <=? 122))%N.
Definition ascii_letter (c : N) : bool := ascii_upper_p c || ascii_lower_p c.
Definition ascii_upper (c : N) : N := if ascii_lower_p c then (c - 32)%N else c.
Definition ascii_lower (c : N) : N := if ascii_upper_p c then (c + 32)%N else c.

(** An interpreter whose case data is the standard one on ASCII. *)
Definition ascii_conformant (rt : Interpreter) : Prop :=
  forall c, (c < 128)%N ->
    is_cased c = ascii_letter c /\
    to_title_full c = [ascii_upper c] /\
    forall data i, lower_ucs4 data i c = [ascii_lower c].

(** ** A sample interpreter

    The entries of the character database for ASCII and for the two code
    points U+0130 (capital I with dot above: cased, its own title case,
    lower case U+0069 U+0307) and U+0307 (combining dot above: not
    cased, no case mapping), and decimal literals in ASCII: blanks around
    an optional sign and digits, with single underscores between digits.
    Every other code point is left unmapped; the samples below do not use
    any. *)

Definition is_space (c : N) : bool :=
  ((c =? 32) || ((9 <=? c) && (c <=? 13)))%N.

Fixpoint strip_left (s : pystr) : pystr :=
  match s with
  | c :: s' => if is_space c then strip_left s' else s
  | [] => []
  end.

Definition strip (s : pystr) : pystr :=
  rev (strip_left (rev (strip_left s))).

Definition digit (c : N) : option Z :=
  if ((48 <=? c) && (c <=? 57))%N then Some (Z.of_N (c - 48)) else None.

Fixpoint digits (acc : Z) (s : pystr) (after_digit : bool) : option Z :=
  match s with
  | [] => if after_digit then Some acc else None
  | c :: s' =>
      if (c =? 95)%N then
        if after_digit then digits acc s' false else None
      else
        match digit c with
        | Some d => digits (10 * acc + d)%Z s' true
        | None => None
        end
  end.

Definition decimal (s : pystr) : option Z :=
  match strip s with
  | 43%N :: r => digits 0 r false
  | 45%N :: r => Z.opp <$> digits 0 r false
  | r => digits 0 r false
  end.

Definition sample : Interpreter := {|
  is_cased c := ascii_letter c || (c =? 304)%N;
  to_title_full c := [ascii_upper c];
  lower_ucs4 _ _ c := if (c =? 304)%N then [105; 775]%N else [ascii_lower c];
  int_of_str := decimal
|}.

(** ** Sample records *)

Definition patient (name : string) (age : value) (gender diagnosis : string)
    : dict :=
  [ (py "name", VStr (py name)); (py "age", age);
    (py "gender", VStr (py gender)); (py "diagnosis", VStr (py diagnosis)) ].

(** The record of the docstring, twice, the second time with its fields
    in another order, then with another diagnosis. *)
Definition john_heap : heap :=
  [ patient "john smith" (VStr (py "32")) "male" "flu";
    [ (py "diagnosis", VStr (py "flu")); (py "gender", VStr (py "male"));
      (py "age", VInt 32); (py "name", VStr (py "John Smith")) ];
    patient "JOHN SMITH" (VInt 32) "male" "cold" ].

(** Ages 18 and 17, and a record without the key. *)
Definition ages_heap : heap :=
  [ patient "ann lee" (VInt 18) "female" "flu";
    patient "bob ray" (VInt 17) "male" "flu";
    [ (py "name", VStr (py "cy")) ] ].

(** Two records that differ in one field, [True] against [1]. *)
Definition smoker_heap : heap :=
  [ patient "ann lee" (VInt 40) "female" "flu" ++ [(py "smoker", VBool true)];
    patient "ann lee" (VInt 40) "female" "flu" ++ [(py "smoker", VInt 1)] ].

(** The name a, U+0130, b. *)
Definition dotted_name : pystr := [97; 304; 98]%N.

(** The text of a JSON object with the four fields. *)
Definition json_patient (name : string) (age : value)
    (gender diagnosis : string) : value :=
  VDict (patient name age gender diagnosis).

(** A source with the record of the docstring twice, a minor, and a
    record with another diagnosis. *)
Definition john_disk : gmap string json_file :=
  {[ "data/raw/patients.json" :=
       JsonText (VList
         [ json_patient "john smith" (VStr (py "32")) "male" "flu";
           json_patient "JOHN SMITH" (VInt 32) "male" "flu";
           json_patient "kid doe" (VInt 12) "male" "flu";
           json_patient "john smith" (VInt 32) "male" "cold" ]) ]}.

(** A source whose array holds an object and a number. *)
Definition mixed_disk : gmap string json_file :=
  {[ "data/raw/patients.json" :=
       JsonText (VList
         [ json_patient "john smith" (VInt 32) "male" "flu"; VInt 5 ]) ]}.

(** A source whose array is empty. *)
Definition empty_array_disk : gmap string json_file :=
  {[ "data/raw/patients.json" := JsonText (VList []) ]}.


(** A good record, a record without a name, a good record. *)
Definition nameless_heap : heap :=
  [ patient "ann lee" (VInt 40) "female" "flu";
    [ (py "age", VInt 30) ];
    patient "bob ray" (VInt 50) "male" "flu" ].

(** A good record, then a record whose age is no number. *)
Definition bad_age_heap : heap :=
  [ patient "ann lee" (VInt 40) "female" "flu";
    patient "cy dee" (VStr (py "abc")) "male" "flu" ].

(** A record of age with a list under a further key. *)
Definition tagged_heap : heap :=
  [ patient "ann lee" (VInt 40) "female" "flu" ++ [(py "tags", VList [])] ].

End Cleaner.

(* ===================================================================== *)
(** * Properties of the cohort aggregator *)
(* ===================================================================== *)

Section CohortFacts.
Import Cohort.
Context {engine : Engine}.
Local Open Scope Q_scope.

Lemma lt_lit_true (c : cell) (k : Q) :
  is_true (lt_lit c k) = true <-> exists b, c = Some b /\ b < k.
Proof.
  destruct c as [x|]; simpl.
  - destruct (Qle_bool k x) eqn:E; simpl; split.
    + discriminate.
    + intros (b & [= <-] & Hb). apply Qle_bool_iff in E. lra.
    + intros _. exists x. split; [reflexivity|].
      destruct (Qlt_le_dec x k) as [H|H]; [exact H|].
      apply Qle_bool_iff in H. congruence.
    + reflexivity.
  - split; [discriminate | intros (b & [=] & _)].
Qed.

Lemma lt_lit_false (b k : Q) :
  is_true (lt_lit (Some b) k) = false <-> k <= b.
Proof.
  simpl. destruct (Qle_bool k b) eqn:E; simpl.
  - apply Qle_bool_iff in E. split; [intros _; exact E | reflexivity].
  - split; [discriminate|]. intros H. apply Qle_bool_iff in H. congruence.
Qed.

Lemma bmi_in_bounds_spec (r : Row) :
  bmi_in_bounds r = true <-> exists b, BMI r = Some b /\ 10 <= b /\ b <= 60.
Proof.
  unfold bmi_in_bounds. destruct (BMI r) as [x|]; simpl.
  - destruct (Qle_bool 10 x) eqn:E1, (Qle_bool x 60) eqn:E2; simpl; split;
      try discriminate; try reflexivity.
    + intros _. exists x. apply Qle_bool_iff in E1, E2. auto.
    + intros (b & [= <-] & _ & H). apply Qle_bool_iff in H. congruence.
    + intros (b & [= <-] & H & _). apply Qle_bool_iff in H. congruence.
    + intros (b & [= <-] & H & _). apply Qle_bool_iff in H. congruence.
  - split; [discriminate | intros (b & [=] & _)].
Qed.

Lemma in_closed_10_60_spec (r : Row) :
  in_closed_10_60 r = true <-> exists b, BMI r = Some b /\ 10 <= b /\ b <= 60.
Proof.
  unfold in_closed_10_60. destruct (BMI r) as [x|].
  - rewrite andb_true_iff, !Qle_bool_iff. split.
    + intros [H1 H2]. eauto.
    + intros (b & [= <-] & H). exact H.
  - split; [discriminate | intros (b & [=] & _)].
Qed.

Lemma bmi_in_bounds_closed (r : Row) : bmi_in_bounds r = in_closed_10_60 r.
Proof.
  apply eq_true_iff_eq. rewrite bmi_in_bounds_spec, in_closed_10_60_spec.
  reflexivity.
Qed.

Lemma select_columns_id (rs : list Row) : select_columns rs = rs.
Proof.
  unfold select_columns. induction rs as [|[b g a] rs IH]; simpl;
    [reflexivity | f_equal; exact IH].
Qed.

(** The chain of lines 33-40 on a number, branch by branch. *)
Lemma bmi_range_of_cases (b : Q) :
  (b < 18.5 /\ bmi_range_of (Some b) = "Underweight") \/
  (18.5 <= b /\ b < 25 /\ bmi_range_of (Some b) = "Normal") \/
  (25 <= b /\ b < 30 /\ bmi_range_of (Some b) = "Overweight") \/
  (30 <= b /\ bmi_range_of (Some b) = "Obese").
Proof.
  unfold bmi_range_of.
  destruct (is_true (lt_lit (Some b) 18.5)) eqn:E1.
  { left. apply lt_lit_true in E1 as (x & [= <-] & H). auto. }
  apply lt_lit_false in E1. right.
  destruct (is_true (lt_lit (Some b) 25)) eqn:E2.
  { left. apply lt_lit_true in E2 as (x & [= <-] & H). auto. }
  apply lt_lit_false in E2. right.
  destruct (is_true (lt_lit (Some b) 30)) eqn:E3.
  { left. apply lt_lit_true in E3 as (x & [= <-] & H). auto. }
  apply lt_lit_false in E3. right. auto.
Qed.

(** Whatever the cell, null included, the chain yields one of the four
    labels. *)
Lemma bmi_range_of_total (c : cell) :
  bmi_range_of c ∈ ["Underweight"; "Normal"; "Overweight"; "Obese"].
Proof.
  unfold bmi_range_of.
  repeat match goal with
         | |- context [if ?b then _ else _] => destruct b
         end; rewrite !elem_of_cons; auto 6.
Qed.

(** C1.  Every row that survives the BMI filter carries a number [b] of
    [10, 60] as its BMI, and the label derived for it is Underweight
    exactly when [b < 18.5], Normal exactly when [18.5 <= b < 25],
    Overweight exactly when [25 <= b < 30] and Obese exactly when
    [30 <= b]; it is one of these four labels. *)
Theorem bmi_range_partition (rs : list Row) (r : Row) (label : string) :
  (r, label) ∈ with_bmi_range (select_columns (filter_bmi rs)) ->
  r ∈ rs /\
  exists b, BMI r = Some b /\ 10 <= b /\ b <= 60 /\
    (label = "Underweight" <-> b < 18.5) /\
    (label = "Normal" <-> 18.5 <= b /\ b < 25) /\
    (label = "Overweight" <-> 25 <= b /\ b < 30) /\
    (label = "Obese" <-> 30 <= b) /\
    label ∈ ["Underweight"; "Normal"; "Overweight"; "Obese"].
Proof.
  rewrite select_columns_id. unfold with_bmi_range, filter_bmi. intros H.
  apply list_elem_of_fmap in H as (r' & [= <- ->] & Hr).
  apply list_elem_of_In, filter_In in Hr as [Hin Hb].
  split; [apply list_elem_of_In; exact Hin|].
  apply bmi_in_bounds_spec in Hb as (b & Eb & Hlo & Hhi).
  exists b. rewrite Eb.
  split; [reflexivity|]. split; [exact Hlo|]. split; [exact Hhi|].
  destruct (bmi_range_of_cases b)
    as [(H1 & ->)|[(H1 & H2 & ->)|[(H1 & H2 & ->)|(H1 & ->)]]];
    (repeat split; try discriminate; try reflexivity; try lra;
     try (intros; lra); rewrite !elem_of_cons; auto 6).
Qed.

(** ** Grouping *)

Lemma add_to_group_size (k : string) (r : Row) (gs : list (string * list Row)) :
  sum_list_with (fun g => length (snd g)) (add_to_group k r gs)
  = S (sum_list_with (fun g => length (snd g)) gs).
Proof.
  induction gs as [|[k' ms] gs IH]; simpl; [reflexivity|].
  destruct (String.eqb k k'); simpl.
  - rewrite length_app. simpl. lia.
  - rewrite IH. lia.
Qed.

Lemma group_by_size (lrs : list (Row * string)) :
  sum_list_with (fun g => length (snd g)) (group_by lrs) = length lrs.
Proof.
  unfold group_by. rewrite (group_order_perm (partition_by lrs)).
  unfold partition_by.
  enough (forall gs,
    sum_list_with (fun g => length (snd g))
      (fold_left (fun gs rk => add_to_group (snd rk) (fst rk) gs) lrs gs)
    = (length lrs + sum_list_with (fun g => length (snd g)) gs)%nat) as H.
  { rewrite H. simpl. lia. }
  induction lrs as [|[r k] lrs IH]; intros gs; simpl; [reflexivity|].
  rewrite IH, add_to_group_size. lia.
Qed.

Lemma add_to_group_keys (k : string) (r : Row) (gs : list (string * list Row)) (k' : string) :
  k' ∈ map fst (add_to_group k r gs) <-> k' = k \/ k' ∈ map fst gs.
Proof.
  induction gs as [|[k0 ms] gs IH]; simpl.
  - rewrite list_elem_of_singleton, elem_of_nil. tauto.
  - destruct (String.eqb_spec k k0) as [->|Hne]; simpl.
    + rewrite !elem_of_cons. tauto.
    + rewrite !elem_of_cons, IH. tauto.
Qed.

Lemma add_to_group_NoDup (k : string) (r : Row) (gs : list (string * list Row)) :
  NoDup (map fst gs) -> NoDup (map fst (add_to_group k r gs)).
Proof.
  induction gs as [|[k0 ms] gs IH]; simpl; intros Hnd.
  - apply NoDup_singleton.
  - apply NoDup_cons in Hnd as [Hk0 Hnd].
    destruct (String.eqb_spec k k0) as [->|Hne]; simpl.
    + apply NoDup_cons. auto.
    + apply NoDup_cons. split; [|auto].
      rewrite add_to_group_keys. intros [->|H]; [congruence|auto].
Qed.

Lemma add_to_group_elem (k : string) (r : Row) (gs : list (string * list Row))
    (k' : string) (ms' : list Row) :
  NoDup (map fst gs) ->
  (k', ms') ∈ add_to_group k r gs ->
  (k' <> k /\ (k', ms') ∈ gs) \/
  (k' = k /\ exists ms, (k, ms) ∈ gs /\ ms' = ms ++ [r]) \/
  (k' = k /\ (k ∉ map fst gs) /\ ms' = [r]).
Proof.
  induction gs as [|[k0 ms] gs IH]; simpl; intros Hnd.
  - rewrite list_elem_of_singleton. intros [= -> ->].
    right. right. rewrite elem_of_nil. tauto.
  - apply NoDup_cons in Hnd as [Hk0 Hnd].
    destruct (String.eqb_spec k k0) as [->|Hne].
    + rewrite elem_of_cons. intros [[= -> ->]|Hin].
      * right. left. split; [reflexivity|]. exists ms.
        rewrite elem_of_cons. auto.
      * left. split.
        -- intros ->. apply Hk0, list_elem_of_fmap. exists (k0, ms'). auto.
        -- rewrite elem_of_cons. auto.
    + rewrite elem_of_cons. intros [[= -> ->]|Hin].
      * left. split; [congruence|]. rewrite elem_of_cons. auto.
      * destruct (IH Hnd Hin) as [[H1 H2]|[[-> (ms1 & H1 & ->)]|[-> [H1 ->]]]].
        -- left. rewrite elem_of_cons. auto.
        -- right. left. split; [reflexivity|]. exists ms1.
           rewrite elem_of_cons. auto.
        -- right. right. rewrite elem_of_cons. intuition congruence.
Qed.

Lemma rows_with_snoc (k k' : string) (r : Row) (lrs : list (Row * string)) :
  rows_with k' (lrs ++ [(r, k)])
  = rows_with k' lrs ++ (if String.eqb k k' then [r] else []).
Proof.
  unfold rows_with. rewrite List.filter_app, map_app. simpl.
  destruct (String.eqb k k'); reflexivity.
Qed.

Lemma rows_with_absent (k : string) (lrs : list (Row * string)) :
  (forall x, x ∈ lrs -> snd x <> k) -> rows_with k lrs = [].
Proof.
  unfold rows_with. induction lrs as [|x lrs IH]; simpl; intros H; [reflexivity|].
  destruct (String.eqb_spec (snd x) k) as [E|E].
  - exfalso. apply (H x); [left|exact E].
  - apply IH. intros y Hy. apply H. right. exact Hy.
Qed.

(** One turn of the grouping keeps the groups in step with the rows. *)
Lemma groups_of_step (k : string) (r : Row) (lrs : list (Row * string))
    (gs : list (string * list Row)) :
  groups_of lrs gs -> groups_of (lrs ++ [(r, k)]) (add_to_group k r gs).
Proof.
  intros (Hnd & Hcov & Hgrp). split; [|split].
  - apply add_to_group_NoDup, Hnd.
  - intros x Hx. rewrite add_to_group_keys.
    apply elem_of_app in Hx as [Hx|Hx]; [right; auto|].
    apply list_elem_of_singleton in Hx as ->. left. reflexivity.
  - intros k' ms' Hin. rewrite rows_with_snoc.
    destruct (add_to_group_elem _ _ _ _ _ Hnd Hin)
      as [[H1 H2]|[[-> (ms1 & H1 & ->)]|[-> [H1 ->]]]].
    + destruct (String.eqb_spec k k') as [->|_]; [congruence|].
      rewrite app_nil_r. apply Hgrp, H2.
    + rewrite String.eqb_refl. destruct (Hgrp _ _ H1) as [<- _].
      split; [reflexivity|]. destruct ms1; discriminate.
    + rewrite String.eqb_refl, rows_with_absent; [split; [reflexivity|discriminate]|].
      intros x Hx <-. apply H1, Hcov, Hx.
Qed.

Lemma groups_of_perm (lrs : list (Row * string))
    (gs gs' : list (string * list Row)) :
  Permutation gs' gs -> groups_of lrs gs -> groups_of lrs gs'.
Proof.
  intros Hp (Hnd & Hcov & Hgrp). split; [|split].
  - rewrite Hp. exact Hnd.
  - intros x Hx. rewrite Hp. apply Hcov, Hx.
  - intros k ms Hin. rewrite Hp in Hin. apply Hgrp, Hin.
Qed.

Lemma groups_of_group_by (lrs : list (Row * string)) :
  groups_of lrs (group_by lrs).
Proof.
  unfold group_by. apply (groups_of_perm _ _ _ (group_order_perm _)).
  unfold partition_by.
  enough (forall rest done gs, groups_of done gs ->
    groups_of (done ++ rest)
      (fold_left (fun gs rk => add_to_group (snd rk) (fst rk) gs) rest gs)) as H.
  { apply (H lrs [] []). split; [apply NoDup_nil_2|].
    split; [intros x Hx; inversion Hx | intros k ms Hin; inversion Hin]. }
  induction rest as [|[r k] rest IH]; intros done gs Hg; simpl.
  - rewrite app_nil_r. exact Hg.
  - replace (done ++ (r, k) :: rest) with ((done ++ [(r, k)]) ++ rest)
      by (rewrite <- app_assoc; reflexivity).
    apply IH, groups_of_step, Hg.
Qed.

Lemma rows_with_labelled (k : string) (rs : list Row) :
  rows_with k (with_bmi_range (select_columns (filter_bmi rs))) = members k rs.
Proof.
  rewrite select_columns_id.
  unfold rows_with, with_bmi_range, filter_bmi, members.
  induction rs as [|r rs IH]; simpl; [reflexivity|].
  rewrite bmi_in_bounds_closed.
  destruct (in_closed_10_60 r); simpl; [|exact IH].
  destruct (String.eqb (bmi_range_of (BMI r)) k); simpl; [f_equal|]; exact IH.
Qed.

Lemma filter_bmi_closed (rs : list Row) :
  filter_bmi rs = List.filter in_closed_10_60 rs.
Proof.
  unfold filter_bmi. apply List.filter_ext. exact bmi_in_bounds_closed.
Qed.

Lemma sum_patient_count (gs : list (string * list Row)) :
  sum_list (map patient_count (map agg gs))
  = sum_list_with (fun g => length (snd g)) gs.
Proof.
  induction gs as [|g gs IH]; simpl; [reflexivity|]. rewrite IH. reflexivity.
Qed.

(** C3.  The patient counts of the result add up to the number of input
    rows whose BMI lies in [10, 60], and a row whose BMI is below 10 or
    above 60 can be taken out of the input without changing the result. *)
Theorem patient_count_total (rs : list Row) :
  sum_list (map patient_count (cohort_query rs))
    = length (List.filter in_closed_10_60 rs) /\
  forall (r : Row) (b : Q) (before after : list Row),
    BMI r = Some b -> b < 10 \/ 60 < b ->
    cohort_query (before ++ r :: after) = cohort_query (before ++ after).
Proof.
  split.
  - unfold cohort_query. rewrite sum_patient_count, group_by_size.
    unfold with_bmi_range.
    rewrite length_map, select_columns_id, filter_bmi_closed. reflexivity.
  - intros r b before after Eb Hout. unfold cohort_query.
    do 4 f_equal. unfold filter_bmi. rewrite !List.filter_app. simpl.
    destruct (bmi_in_bounds r) eqn:E; [|reflexivity].
    apply bmi_in_bounds_spec in E as (b' & Eb' & Hlo & Hhi).
    rewrite Eb in Eb'. injection Eb' as <-. lra.
Qed.



(** ** The failures of the plan *)

Lemma first_failure_single (e : error) : first_failure e [] = e.
Proof.
  pose proof (first_failure_elem e []) as H.
  apply list_elem_of_singleton in H. exact H.
Qed.

Lemma collect_failure (df : DataFrame) (e : error) :
  collect df = Err e -> e ∈ plan_failures df.
Proof.
  unfold collect. destruct (plan_failures df) as [|e0 es]; [discriminate|].
  intros [= <-]. apply first_failure_elem.
Qed.

Lemma column_failure_kinds (name : string) (column : Row -> cell)
    (unsupported e : error) (df : DataFrame) :
  e ∈ column_failure name column unsupported df ->
  e = ColumnNotFoundError name \/ e = unsupported.
Proof.
  unfold column_failure.
  destruct (has_column name df); simpl.
  - destruct (numeric column df); simpl; intros H.
    + inversion H.
    + apply list_elem_of_singleton in H. auto.
  - intros H. apply list_elem_of_singleton in H. auto.
Qed.

Lemma plan_failures_found (df : DataFrame) (e : error) (path : string) :
  e ∈ plan_failures df -> e <> FileNotFoundError path.
Proof.
  unfold plan_failures. rewrite !elem_of_app.
  intros [H|[H|H]]; apply column_failure_kinds in H as [-> | ->];
    discriminate.
Qed.

Lemma column_failure_none (name : string) (column : Row -> cell)
    (unsupported : error) (df : DataFrame) :
  has_column name df = true -> numeric column df = true ->
  column_failure name column unsupported df = [].
Proof. unfold column_failure. intros -> ->. reflexivity. Qed.

Lemma collect_ok (df : DataFrame) :
  has_column "BMI" df = true ->
  has_column "Glucose" df = true ->
  has_column "Age" df = true ->
  numeric BMI df = true ->
  numeric Glucose df = true ->
  numeric Age df = true ->
  collect df = Ok (cohort_query (rows df)).
Proof.
  intros Hb Hg Ha Nb Ng Na. unfold collect, plan_failures.
  rewrite !column_failure_none by assumption. reflexivity.
Qed.

Lemma collect_no_bmi : collect no_bmi_frame = Err (ColumnNotFoundError "BMI").
Proof.
  unfold collect, plan_failures, column_failure, numeric. simpl.
  rewrite !numeric_when_first. simpl. rewrite first_failure_single.
  reflexivity.
Qed.

(** ** The file system *)

Lemma analyze_success (input_file : string) (disk : gmap string file)
    (df : DataFrame) (res : list Aggregate) :
  disk !! input_file = Some (CsvFile df) ->
  collect df = Ok res ->
  analyze_patient_cohorts input_file disk = (delete parquet_file disk, Ok res).
Proof.
  intros Hf Hc. unfold analyze_patient_cohorts, exists_path, read_csv,
    scan_parquet, write_parquet, remove.
  rewrite Hf. rewrite bool_decide_eq_true_2 by eauto. simpl.
  rewrite lookup_insert_eq, Hc.
  rewrite bool_decide_eq_true_2 by eauto.
  rewrite delete_insert_eq. reflexivity.
Qed.

Lemma analyze_failure (input_file : string) (disk : gmap string file)
    (df : DataFrame) (e : error) :
  disk !! input_file = Some (CsvFile df) ->
  collect df = Err e ->
  analyze_patient_cohorts input_file disk
  = (<[parquet_file := ParquetFile df]> disk, Err e).
Proof.
  intros Hf Hc. unfold analyze_patient_cohorts, exists_path, read_csv,
    scan_parquet, write_parquet.
  rewrite Hf. rewrite bool_decide_eq_true_2 by eauto. simpl.
  rewrite lookup_insert_eq, Hc. reflexivity.
Qed.

(** C2.  On a file that exists and has no BMI column the query fails after
    the Parquet file was written, the exception leaves the function
    before the clean-up of lines 51-52, and the Parquet file, which was
    not on the disk before the call, is on it afterwards. *)
Theorem parquet_left_after_failure :
  exists disk',
    analyze_patient_cohorts "patients_large.csv" no_bmi_disk
      = (disk', Err (ColumnNotFoundError "BMI")) /\
    no_bmi_disk !! parquet_file = None /\
    disk' !! parquet_file = Some (ParquetFile no_bmi_frame).
Proof.
  eexists. split; [|split].
  - apply (analyze_failure _ _ no_bmi_frame); [reflexivity|].
    exact collect_no_bmi.
  - reflexivity.
  - apply lookup_insert_eq.
Qed.

(** C7.  When nothing is at the input path the call fails with the
    not-found error and leaves the disk as it was: nothing was read and no
    file was written.  When something is at the path, the call does not
    end in a not-found error. *)
Theorem not_found_before_processing (input_file : string)
    (disk : gmap string file) :
  (disk !! input_file = None ->
     analyze_patient_cohorts input_file disk
     = (disk, Err (FileNotFoundError input_file))) /\
  (is_Some (disk !! input_file) ->
     forall path, snd (analyze_patient_cohorts input_file disk)
                  <> Err (FileNotFoundError path)).
Proof.
  unfold analyze_patient_cohorts, exists_path. split.
  - intros Hf. rewrite bool_decide_eq_false_2; [reflexivity|].
    rewrite Hf. intros [x [=]].
  - intros Hf path. rewrite bool_decide_eq_true_2 by exact Hf. simpl.
    destruct Hf as [f Hf]. unfold read_csv. rewrite Hf.
    destruct f as [df| |]; simpl; try discriminate.
    unfold scan_parquet, write_parquet. rewrite lookup_insert_eq.
    destruct (collect df) as [res|e] eqn:Ec; simpl; [discriminate|].
    intros [= ->]. apply collect_failure in Ec.
    exact (plan_failures_found df _ path Ec eq_refl).
Qed.

End CohortFacts.

(** ** The aggregator on the samples *)

Section CohortSamples.
Import Cohort.
Local Open Scope Q_scope.



(** The second of [three_rows] passes the filter and is labelled Normal:
    its BMI lies between 18.5 and 25. *)
Lemma bmi_range_partition_witness :
  exists b, BMI (mkRow (Some 22) (Some 120) (Some 30)) = Some b /\
    18.5 <= b /\ b < 25.
Proof.
  assert ((mkRow (Some 22) (Some 120) (Some 30), "Normal"%string)
            ∈ with_bmi_range (select_columns (filter_bmi three_rows))) as Hin.
  { apply list_elem_of_In. vm_compute. right. left. reflexivity. }
  destruct (bmi_range_partition three_rows _ _ Hin)
    as (_ & b & Eb & _ & _ & _ & Hn & _).
  exists b. split; [exact Eb|]. apply Hn. reflexivity.
Defined.

End CohortSamples.

(* ===================================================================== *)
(** * Properties of the record cleaner *)
(* ===================================================================== *)

Section CleanerFacts.
Import Cleaner.
Context {rt : Interpreter}.

(** ** Dicts *)

Lemma name_neq_age : py "name" <> py "age".
Proof. vm_compute. discriminate. Qed.

Lemma dict_get_set_eq (k : pystr) (v : value) (d : dict) :
  dict_get k (dict_set k v d) = Some v.
Proof.
  induction d as [|[k' v'] d IH]; simpl.
  - rewrite bool_decide_eq_true_2; reflexivity.
  - destruct (decide (k = k')) as [E|E].
    + rewrite (bool_decide_eq_true_2 _ E). simpl.
      rewrite (bool_decide_eq_true_2 _ E). reflexivity.
    + rewrite (bool_decide_eq_false_2 _ E). simpl.
      rewrite (bool_decide_eq_false_2 _ E). exact IH.
Qed.

Lemma dict_get_set_ne (k k0 : pystr) (v : value) (d : dict) :
  k <> k0 -> dict_get k0 (dict_set k v d) = dict_get k0 d.
Proof.
  intros Hne. induction d as [|[k' v'] d IH]; simpl.
  - rewrite bool_decide_eq_false_2; [reflexivity | congruence].
  - destruct (decide (k = k')) as [E|E].
    + rewrite (bool_decide_eq_true_2 _ E). simpl. subst k'.
      rewrite !bool_decide_eq_false_2 by congruence. reflexivity.
    + rewrite (bool_decide_eq_false_2 _ E). simpl.
      destruct (bool_decide (k0 = k')); [reflexivity | exact IH].
Qed.

Lemma dict_set_keys (k : pystr) (v : value) (d : dict) :
  map fst (dict_set k v d)
  = if bool_decide (k ∈ map fst d) then map fst d else map fst d ++ [k].
Proof.
  induction d as [|[k' v'] d IH].
  - reflexivity.
  - cbn [dict_set map fst]. rewrite (bool_decide_ext _ _ (elem_of_cons (map fst d) k k')).
    destruct (decide (k = k')) as [E|E].
    + rewrite (bool_decide_eq_true_2 _ E).
      rewrite bool_decide_eq_true_2 by (left; exact E). reflexivity.
    + rewrite (bool_decide_eq_false_2 _ E). cbn [map fst]. rewrite IH.
      destruct (decide (k ∈ map fst d)) as [Hin|Hin].
      * rewrite (bool_decide_eq_true_2 _ Hin).
        rewrite bool_decide_eq_true_2 by (right; exact Hin). reflexivity.
      * rewrite (bool_decide_eq_false_2 _ Hin).
        rewrite bool_decide_eq_false_2 by tauto. reflexivity.
Qed.

Lemma dict_set_NoDup (k : pystr) (v : value) (d : dict) :
  NoDup (map fst d) -> NoDup (map fst (dict_set k v d)).
Proof.
  intros Hnd. rewrite dict_set_keys. case_bool_decide as Hin; [exact Hnd|].
  apply NoDup_app. split; [exact Hnd|]. split; [|apply NoDup_singleton].
  intros x Hx Hx'. apply list_elem_of_singleton in Hx' as ->. auto.
Qed.

(** ** One record *)

Lemma normalize_ok (d d' : dict) (n : Z) :
  normalize d = Ok (d', n) ->
  exists s,
    dict_get (py "name") d = Some (VStr s) /\
    coerced_age d = Ok n /\
    d' = dict_set (py "age") (VInt n) (dict_set (py "name") (VStr (title s)) d).
Proof.
  unfold normalize. destruct (dict_get (py "name") d) as [[| | | | | |s| |]|] eqn:En;
    try discriminate.
  destruct (coerced_age _) as [m|e] eqn:Ea; [|discriminate].
  intros [= <- <-]. exists s. split; [reflexivity|]. split; [|reflexivity].
  unfold coerced_age in *. rewrite dict_get_set_ne in Ea by exact name_neq_age.
  exact Ea.
Qed.

Lemma normalize_fields (d d' : dict) (n : Z) :
  normalize d = Ok (d', n) ->
  (exists s, dict_get (py "name") d' = Some (VStr (title s))) /\
  dict_get (py "age") d' = Some (VInt n) /\
  coerced_age d' = Ok n.
Proof.
  intros H. apply normalize_ok in H as (s & Hs & Ha & ->).
  split; [|split].
  - exists s. rewrite dict_get_set_ne by (intros E; symmetry in E; exact (name_neq_age E)).
    apply dict_get_set_eq.
  - apply dict_get_set_eq.
  - unfold coerced_age. rewrite dict_get_set_eq. reflexivity.
Qed.

Lemma normalize_NoDup (d d' : dict) (n : Z) :
  normalize d = Ok (d', n) -> NoDup (map fst d) -> NoDup (map fst d').
Proof.
  intros H Hnd. apply normalize_ok in H as (s & _ & _ & ->).
  apply dict_set_NoDup, dict_set_NoDup, Hnd.
Qed.

(** ** Statements that end without an exception *)

Lemma bind_ok {A B} (m : M A) (f : A -> M B) (h h' : heap) (b : B) :
  bind m f h = (h', Ok b) ->
  exists a h1, m h = (h1, Ok a) /\ f a h1 = (h', Ok b).
Proof.
  unfold bind. destruct (m h) as [h1 [a|e]]; [eauto | discriminate].
Qed.

Lemma getitem_ok (p : ref) (k : pystr) (h h' : heap) (v : value) :
  getitem p k h = (h', Ok v) ->
  h' = h /\ exists d, h !! p = Some d /\ dict_get k d = Some v.
Proof.
  unfold getitem. destruct (h !! p) as [d|]; [|discriminate].
  destruct (dict_get k d) as [w|] eqn:E; [|discriminate].
  intros [= <- <-]. split; [reflexivity|]. exists d. auto.
Qed.

Lemma get_ok (p : ref) (k : pystr) (v0 : value) (h h' : heap) (v : value) :
  get p k v0 h = (h', Ok v) ->
  h' = h /\ exists d, h !! p = Some d /\ v = default v0 (dict_get k d).
Proof.
  unfold get. destruct (h !! p) as [d|]; [|discriminate].
  destruct (dict_get k d) as [w|] eqn:E; intros [= <- <-];
    (split; [reflexivity|]; exists d; rewrite E; auto).
Qed.

Lemma setitem_ok (p : ref) (k : pystr) (v : value) (h h' : heap) (u : unit) :
  setitem p k v h = (h', Ok u) ->
  exists d, h !! p = Some d /\ h' = <[p := dict_set k v d]> h.
Proof.
  unfold setitem. destruct (h !! p) as [d|]; [|discriminate].
  intros [= <-]. exists d. auto.
Qed.

Lemma items_ok (p : ref) (h h' : heap) (its : list item) :
  items p h = (h', Ok its) -> h' = h /\ h !! p = Some its.
Proof.
  unfold items. destruct (h !! p) as [d|]; [|discriminate].
  intros [= <- <-]. auto.
Qed.

Lemma call_title_ok (v v' : value) (h h' : heap) :
  call_title v h = (h', Ok v') ->
  h' = h /\ exists s, v = VStr s /\ v' = VStr (title s).
Proof.
  destruct v; try discriminate. simpl. intros [= <- <-].
  split; [reflexivity|]. eexists. split; reflexivity.
Qed.

Lemma lift_ok {A} (r : result exn A) (h h' : heap) (a : A) :
  lift r h = (h', Ok a) -> h' = h /\ r = Ok a.
Proof. unfold lift. intros [= <- <-]. auto. Qed.

Lemma lookup_insert_same (h : heap) (p : ref) (d d' : dict) :
  h !! p = Some d -> <[p := d']> h !! p = Some d'.
Proof.
  intros H. apply list_lookup_insert_eq. eapply lookup_lt_Some, H.
Qed.

Lemma insert_insert_same (h : heap) (p : ref) (d d' : dict) :
  <[p := d']> (<[p := d]> h) = <[p := d']> h.
Proof. apply list_insert_insert_eq. Qed.

(** A turn of the loop that ends without an exception: the record is
    overwritten by its cleaned form, and its reference is appended when
    it is of age and its tuple is new. *)
Lemma loop_body_ok (p : ref) (seen seen' : list (list item))
    (out out' : list ref) (h h' : heap) :
  loop_body p (seen, out) h = (h', Ok (seen', out')) ->
  exists d d' n,
    h !! p = Some d /\ normalize d = Ok (d', n) /\ h' = <[p := d']> h /\
    (seen', out')
      = (if (18 <=? n)%Z && negb (existsb (tuple_eq (sorted d')) seen)
         then (sorted d' :: seen, out ++ [p]) else (seen, out)) /\
    ((18 <= n)%Z ->
       forallb (fun kv => hashable (snd kv)) (sorted d') = true).
Proof.
  unfold loop_body. intros H.
  apply bind_ok in H as (name & h1 & H1 & H).
  apply getitem_ok in H1 as (-> & d & Hd & Hname).
  apply bind_ok in H as (name' & h1 & H1 & H).
  apply call_title_ok in H1 as (-> & s & -> & ->).
  apply bind_ok in H as (u & h1 & H1 & H).
  apply setitem_ok in H1 as (d0 & Hd0 & ->).
  rewrite Hd in Hd0. injection Hd0 as <-.
  apply bind_ok in H as (age & h2 & H2 & H).
  apply get_ok in H2 as (-> & d1 & Hd1 & ->).
  rewrite (lookup_insert_same _ _ _ _ Hd) in Hd1. injection Hd1 as <-.
  apply bind_ok in H as (n & h2 & H2 & H).
  apply lift_ok in H2 as (-> & Hn).
  apply bind_ok in H as (u' & h2 & H2 & H).
  apply setitem_ok in H2 as (d1 & Hd1 & ->).
  rewrite (lookup_insert_same _ _ _ _ Hd) in Hd1. injection Hd1 as <-.
  rewrite insert_insert_same in H.
  set (d' := dict_set (py "age") (VInt n)
               (dict_set (py "name") (VStr (title s)) d)) in *.
  assert (normalize d = Ok (d', n)) as Hnorm.
  { unfold normalize. rewrite Hname. unfold coerced_age. rewrite Hn. reflexivity. }
  exists d, d', n. split; [exact Hd|]. split; [exact Hnorm|].
  destruct (18 <=? n)%Z eqn:E18; simpl.
  - apply bind_ok in H as (its & h3 & H3 & H).
    apply items_ok in H3 as (-> & Hits).
    rewrite (lookup_insert_same _ _ _ _ Hd) in Hits. injection Hits as <-.
    apply bind_ok in H as (known & h3 & H3 & H).
    apply lift_ok in H3 as (-> & Hknown).
    unfold contains in Hknown.
    match type of Hknown with
    | context [forallb ?f ?t] => destruct (forallb f t) eqn:Hhash
    end; [|discriminate].
    injection Hknown as <-.
    destruct (existsb (tuple_eq (sorted d')) seen); simpl in *;
      injection H as <- <- <-; auto.
  - injection H as <- <- <-. split; [reflexivity|]. split; [reflexivity|].
    intros Hge. apply Z.leb_gt in E18. lia.
Qed.

(** ** The loop *)

Lemma for_each_cons_ok (p : ref) (rest : list ref) (seen seen' : list (list item))
    (out out' : list ref) (h h' : heap) :
  for_each (p :: rest) (seen, out) h = (h', Ok (seen', out')) ->
  exists seen1 out1 h1,
    loop_body p (seen, out) h = (h1, Ok (seen1, out1)) /\
    for_each rest (seen1, out1) h1 = (h', Ok (seen', out')).
Proof.
  simpl. intros H. apply bind_ok in H as ([seen1 out1] & h1 & H1 & H). eauto.
Qed.

Lemma for_each_length (ps : list ref) (seen seen' : list (list item))
    (out out' : list ref) (h h' : heap) :
  for_each ps (seen, out) h = (h', Ok (seen', out')) -> length h' = length h.
Proof.
  revert seen out h. induction ps as [|p rest IH]; intros seen out h H.
  - injection H as <- _ _. reflexivity.
  - apply for_each_cons_ok in H as (seen1 & out1 & h1 & Hb & H).
    apply loop_body_ok in Hb as (d & d' & n & _ & _ & -> & _).
    rewrite (IH _ _ _ H). apply length_insert.
Qed.

Lemma for_each_frame (ps : list ref) (seen seen' : list (list item))
    (out out' : list ref) (h h' : heap) (l : ref) :
  for_each ps (seen, out) h = (h', Ok (seen', out')) ->
  l ∉ ps -> h' !! l = h !! l.
Proof.
  revert seen out h. induction ps as [|p rest IH]; intros seen out h H Hl.
  - injection H as <- _ _. reflexivity.
  - apply for_each_cons_ok in H as (seen1 & out1 & h1 & Hb & H).
    apply loop_body_ok in Hb as (d & d' & n & _ & _ & -> & _).
    apply not_elem_of_cons in Hl as [Hne Hl].
    rewrite (IH _ _ _ H Hl). apply list_lookup_insert_ne. congruence.
Qed.

Lemma for_each_sublist (ps : list ref) (seen seen' : list (list item))
    (out out' : list ref) (h h' : heap) :
  for_each ps (seen, out) h = (h', Ok (seen', out')) ->
  exists kept, out' = out ++ kept /\ kept `sublist_of` ps.
Proof.
  revert seen out h. induction ps as [|p rest IH]; intros seen out h H.
  - injection H as _ _ <-. exists []. rewrite app_nil_r. split; [reflexivity|].
    apply sublist_nil.
  - apply for_each_cons_ok in H as (seen1 & out1 & h1 & Hb & H).
    apply loop_body_ok in Hb as (d & d' & n & _ & _ & _ & Hacc & _).
    destruct (IH _ _ _ H) as (kept & -> & Hsub).
    destruct ((18 <=? n)%Z && negb (existsb (tuple_eq (sorted d')) seen));
      injection Hacc as _ ->.
    + exists (p :: kept). rewrite <- app_assoc. split; [reflexivity|].
      apply sublist_skip, Hsub.
    + exists kept. split; [reflexivity|]. apply sublist_cons, Hsub.
Qed.

(** The coerced age of a record is the same before and after the loop. *)
Lemma for_each_age (ps : list ref) (seen seen' : list (list item))
    (out out' : list ref) (h h' : heap) (l : ref) (d : dict) :
  for_each ps (seen, out) h = (h', Ok (seen', out')) ->
  h !! l = Some d ->
  exists d', h' !! l = Some d' /\ (l ∈ ps -> coerced_age d' = coerced_age d)
             /\ (l ∉ ps -> d' = d).
Proof.
  revert seen out h d. induction ps as [|p rest IH]; intros seen out h d H Hd.
  - injection H as <- _ _. exists d. split; [exact Hd|].
    split; [intros Hin; inversion Hin | reflexivity].
  - apply for_each_cons_ok in H as (seen1 & out1 & h1 & Hb & H).
    apply loop_body_ok in Hb as (dp & dp' & n & Hp & Hnorm & -> & _).
    destruct (decide (l = p)) as [->|Hne].
    + rewrite Hp in Hd. injection Hd as ->.
      destruct (IH _ _ _ dp' H (lookup_insert_same _ _ _ _ Hp))
        as (d' & Hd' & Hin & Hout).
      exists d'. split; [exact Hd'|]. split.
      * intros _. apply normalize_ok in Hnorm as Hn.
        destruct Hn as (s & _ & Hage & _).
        apply normalize_fields in Hnorm as (_ & _ & Hage').
        destruct (decide (p ∈ rest)) as [Hr|Hr].
        -- rewrite (Hin Hr). congruence.
        -- rewrite (Hout Hr). congruence.
      * intros Hn. exfalso. apply Hn. left.
    + assert (<[p := dp']> h !! l = Some d) as Hd1.
      { rewrite <- Hd. apply list_lookup_insert_ne. congruence. }
      destruct (IH _ _ _ d H Hd1) as (d' & Hd' & Hin & Hout).
      exists d'. split; [exact Hd'|]. split.
      * intros Hl. apply elem_of_cons in Hl as [?|Hl]; [congruence|auto].
      * intros Hl. apply not_elem_of_cons in Hl as [_ Hl]. auto.
Qed.

(** A reference the loop appends is one of its input, and its record is
    of age. *)
Lemma for_each_kept_adult (ps : list ref) (seen seen' : list (list item))
    (out out' : list ref) (h h' : heap) (l : ref) :
  for_each ps (seen, out) h = (h', Ok (seen', out')) ->
  l ∈ out' ->
  l ∈ out \/
  (l ∈ ps /\ exists d n, h !! l = Some d /\ coerced_age d = Ok n /\ (18 <= n)%Z).
Proof.
  revert seen out h. induction ps as [|p rest IH]; intros seen out h H Hl.
  - injection H as _ _ <-. left. exact Hl.
  - apply for_each_cons_ok in H as (seen1 & out1 & h1 & Hb & H).
    apply loop_body_ok in Hb as (dp & dp' & n & Hp & Hnorm & -> & Hacc & _).
    destruct (IH _ _ _ H Hl) as [Hin|(Hin & d1 & n1 & Hd1 & Hage & Hge)].
    + destruct (18 <=? n)%Z eqn:E18; simpl in Hacc.
      2:{ injection Hacc as _ ->. left. exact Hin. }
      destruct (existsb _ seen); simpl in Hacc; injection Hacc as _ ->.
      { left. exact Hin. }
      apply elem_of_app in Hin as [Hin|Hin]; [left; exact Hin|].
      apply list_elem_of_singleton in Hin as ->. right.
      split; [left|]. exists dp, n. split; [exact Hp|].
      apply normalize_ok in Hnorm as (s & _ & Hage & _).
      split; [exact Hage|]. apply Z.leb_le, E18.
    + right. split; [right; exact Hin|].
      destruct (decide (l = p)) as [->|Hne].
      * rewrite (lookup_insert_same _ _ _ _ Hp) in Hd1. injection Hd1 as <-.
        exists dp, n1. split; [exact Hp|]. split; [|exact Hge].
        apply normalize_ok in Hnorm as Hn. destruct Hn as (s & _ & Hage0 & _).
        apply normalize_fields in Hnorm as (_ & _ & Hage1). congruence.
      * exists d1, n1. split; [|auto].
        rewrite <- Hd1. symmetry. apply list_lookup_insert_ne. congruence.
Qed.

(** Every record of the input ends with a title-cased name and an
    integer age, whether or not its reference was appended. *)
Lemma for_each_cleaned (ps : list ref) (seen seen' : list (list item))
    (out out' : list ref) (h h' : heap) (l : ref) :
  for_each ps (seen, out) h = (h', Ok (seen', out')) ->
  (l ∈ ps \/
   exists d s n, h !! l = Some d /\
     dict_get (py "name") d = Some (VStr (title s)) /\
     dict_get (py "age") d = Some (VInt n)) ->
  exists d' s n, h' !! l = Some d' /\
    dict_get (py "name") d' = Some (VStr (title s)) /\
    dict_get (py "age") d' = Some (VInt n).
Proof.
  revert seen out h. induction ps as [|p rest IH]; intros seen out h H Hl.
  - injection H as <- _ _. destruct Hl as [Hl|Hl]; [inversion Hl | exact Hl].
  - apply for_each_cons_ok in H as (seen1 & out1 & h1 & Hb & H).
    apply loop_body_ok in Hb as (dp & dp' & n & Hp & Hnorm & -> & _).
    apply (IH _ _ _ H).
    destruct (decide (l = p)) as [->|Hne].
    + right. apply normalize_fields in Hnorm as ((s & Hs) & Ha & _).
      exists dp', s, n. split; [|auto]. exact (lookup_insert_same _ _ _ _ Hp).
    + destruct Hl as [Hl|(d & s & m & Hd & Hs & Ha)].
      * apply elem_of_cons in Hl as [?|Hl]; [congruence | left; exact Hl].
      * right. exists d, s, m. split; [|auto].
        rewrite <- Hd. apply list_lookup_insert_ne. congruence.
Qed.

(** On distinct references the loop is the pure selection [firsts] over
    the cleaned records, and each record ends as its cleaned form. *)
Lemma for_each_pure (ps : list ref) (seen seen' : list (list item))
    (out out' : list ref) (h h' : heap) :
  NoDup ps ->
  for_each ps (seen, out) h = (h', Ok (seen', out')) ->
  exists recs : list (ref * (dict * Z)),
    map fst recs = ps /\
    (forall l d' n, (l, (d', n)) ∈ recs ->
       exists d, h !! l = Some d /\ normalize d = Ok (d', n) /\
                 h' !! l = Some d') /\
    out' = out ++ firsts seen recs.
Proof.
  revert seen out h. induction ps as [|p rest IH]; intros seen out h Hnd H.
  - injection H as _ _ <-. exists []. rewrite app_nil_r.
    split; [reflexivity|]. split; [|reflexivity].
    intros l d' n Hin. inversion Hin.
  - apply NoDup_cons in Hnd as [Hp_rest Hnd].
    apply for_each_cons_ok in H as (seen1 & out1 & h1 & Hb & H).
    apply loop_body_ok in Hb as (dp & dp' & n & Hp & Hnorm & -> & Hacc & _).
    destruct (IH _ _ _ Hnd H) as (recs & Hfst & Hrecs & ->).
    exists ((p, (dp', n)) :: recs). split; [simpl; rewrite Hfst; reflexivity|].
    split.
    + intros l d' m Hin. apply elem_of_cons in Hin as [[= -> -> ->]|Hin].
      * exists dp. split; [exact Hp|]. split; [exact Hnorm|].
        rewrite (for_each_frame _ _ _ _ _ _ _ p H Hp_rest).
        exact (lookup_insert_same _ _ _ _ Hp).
      * destruct (Hrecs _ _ _ Hin) as (d & Hd & Hn & Hd').
        exists d. split; [|auto]. rewrite <- Hd. symmetry.
        apply list_lookup_insert_ne. intros ->. apply Hp_rest.
        rewrite <- Hfst. apply list_elem_of_fmap. exists (l, (d', m)). auto.
    + simpl.
      destruct ((18 <=? n)%Z && negb (existsb (tuple_eq (sorted dp')) seen));
        injection Hacc as -> ->; [rewrite <- app_assoc|]; reflexivity.
Qed.

(** ** Equality of tuples *)

Lemma Qeq_bool_trans (x y z : Q) :
  Qeq_bool x y = true -> Qeq_bool y z = true -> Qeq_bool x z = true.
Proof.
  rewrite !Qeq_bool_iff. intros H1 H2. rewrite H1. exact H2.
Qed.

Lemma py_eq_trans (a b c : value) :
  py_eq a b = true -> py_eq b c = true -> py_eq a c = true.
Proof.
  unfold py_eq.
  destruct (as_number a) as [x|] eqn:Ea, (as_number b) as [y|] eqn:Eb;
    try discriminate.
  - destruct (as_number c) as [z|]; [apply Qeq_bool_trans | discriminate].
  - destruct (as_number c) as [z|]; [discriminate|].
    destruct a, b; try discriminate; destruct c; try discriminate; try reflexivity.
    + intros H1%Bool.eqb_prop H2%Bool.eqb_prop. subst. apply Bool.eqb_reflx.
    + intros H1%bool_decide_eq_true H2%bool_decide_eq_true.
      apply bool_decide_eq_true. congruence.
    + intros H1%bool_decide_eq_true H2%bool_decide_eq_true.
      apply bool_decide_eq_true. congruence.
Qed.

Lemma py_eq_refl (v : value) : hashable v = true -> py_eq v v = true.
Proof.
  destruct v; simpl; try discriminate; intros _; unfold py_eq; simpl;
    try reflexivity; try (apply Qeq_bool_iff; reflexivity);
    try (apply bool_decide_eq_true; reflexivity).
  apply Bool.eqb_reflx.
Qed.

Lemma tuple_eq_trans (t u w : list item) :
  tuple_eq t u = true -> tuple_eq u w = true -> tuple_eq t w = true.
Proof.
  revert u w. induction t as [|[k1 v1] t IH]; intros [|[k2 v2] u] [|[k3 v3] w];
    simpl; try discriminate; [reflexivity|].
  rewrite !andb_true_iff.
  intros [[E1%bool_decide_eq_true P1] T1] [[E2%bool_decide_eq_true P2] T2].
  split; [split|].
  - apply bool_decide_eq_true. congruence.
  - eapply py_eq_trans; eassumption.
  - eapply IH; eassumption.
Qed.

Lemma tuple_eq_refl (t : list item) :
  forallb (fun kv : item => hashable (snd kv)) t = true -> tuple_eq t t = true.
Proof.
  induction t as [|[k v] t IH]; simpl; [reflexivity|].
  rewrite !andb_true_iff. intros [Hv Ht]. split; [split|].
  - apply bool_decide_eq_true. reflexivity.
  - apply py_eq_refl, Hv.
  - apply IH, Ht.
Qed.

(** ** The selection of first occurrences *)

Lemma firsts_subset (seen : list (list item)) (xs : list (ref * (dict * Z)))
    (l : ref) :
  l ∈ firsts seen xs -> l ∈ map fst xs.
Proof.
  revert seen. induction xs as [|[l0 [d0 n0]] xs IH]; intros seen; simpl.
  - intros H. inversion H.
  - destruct ((18 <=? n0)%Z && negb (existsb (tuple_eq (sorted d0)) seen)).
    + rewrite !elem_of_cons. intros [->|H]; [left; reflexivity|].
      right. eapply IH, H.
    + intros H. right. eapply IH, H.
Qed.

Lemma existsb_false_elem {A} (f : A -> bool) (l : list A) :
  existsb f l = false <-> forall x, x ∈ l -> f x = false.
Proof.
  induction l as [|a l IH]; simpl.
  - split; [intros _ x Hx; inversion Hx | reflexivity].
  - rewrite orb_false_iff, IH. split.
    + intros [Ha Hl] x Hx. apply elem_of_cons in Hx as [->|Hx]; auto.
    + intros H. split; [apply H; left | intros x Hx; apply H; right; exact Hx].
Qed.

(** A reference is selected exactly when its record is of age and its
    tuple equals neither a tuple seen before nor the tuple of an earlier
    record of age. *)
Lemma firsts_spec (xs : list (ref * (dict * Z))) (seen : list (list item))
    (j : nat) (l : ref) (d : dict) (n : Z) :
  NoDup (map fst xs) ->
  xs !! j = Some (l, (d, n)) ->
  l ∈ firsts seen xs <->
  (18 <= n)%Z /\
  (forall t, t ∈ seen -> tuple_eq (sorted d) t = false) /\
  (forall i li di ni, (i < j)%nat -> xs !! i = Some (li, (di, ni)) ->
     (18 <= ni)%Z -> tuple_eq (sorted d) (sorted di) = false).
Proof.
  revert seen j. induction xs as [|[l0 [d0 n0]] xs IH]; intros seen j Hnd Hj.
  { destruct j; discriminate. }
  simpl in Hnd. apply NoDup_cons in Hnd as [Hl0 Hnd].
  destruct j as [|j]; simpl in Hj.
  - injection Hj as -> -> ->. simpl.
    destruct (18 <=? n)%Z eqn:E18; simpl.
    + destruct (existsb (tuple_eq (sorted d)) seen) eqn:Ex; simpl.
      * split.
        -- intros H. exfalso. apply Hl0. eapply firsts_subset, H.
        -- intros (_ & Hs & _). apply existsb_false_elem in Hs. congruence.
      * split; [|intros _; left].
        intros _. split; [apply Z.leb_le, E18|].
        split; [apply existsb_false_elem, Ex|]. intros i ? ? ? Hi. lia.
    + split.
      * intros H. exfalso. apply Hl0. eapply firsts_subset, H.
      * intros (Hge & _). apply Z.leb_gt in E18. lia.
  - assert (l <> l0) as Hne.
    { intros ->. apply Hl0, list_elem_of_fmap. exists (l0, (d, n)).
      split; [reflexivity|]. eapply list_elem_of_lookup_2, Hj. }
    simpl.
    destruct ((18 <=? n0)%Z && negb (existsb (tuple_eq (sorted d0)) seen)) eqn:C.
    + apply andb_true_iff in C as [E18%Z.leb_le Ex%negb_true_iff].
      rewrite elem_of_cons, (IH (sorted d0 :: seen) j Hnd Hj). split.
      * intros [?|(Hn & Hs & He)]; [congruence|]. split; [exact Hn|]. split.
        -- intros t Ht. apply Hs. right. exact Ht.
        -- intros [|i] li di ni Hi Hxi Hni; simpl in Hxi.
           ++ injection Hxi as <- <- <-. apply Hs. left.
           ++ apply (He i li di ni); [lia | exact Hxi | exact Hni].
      * intros (Hn & Hs & He). right. split; [exact Hn|]. split.
        -- intros t Ht. apply elem_of_cons in Ht as [->|Ht]; [|auto].
           apply (He 0%nat l0 d0 n0); [lia | reflexivity | exact E18].
        -- intros i li di ni Hi Hxi Hni.
           apply (He (S i) li di ni); [lia | exact Hxi | exact Hni].
    + rewrite (IH seen j Hnd Hj). split.
      * intros (Hn & Hs & He). split; [exact Hn|]. split; [exact Hs|].
        intros [|i] li di ni Hi Hxi Hni; simpl in Hxi.
        -- injection Hxi as <- <- <-.
           apply andb_false_iff in C as [C|C]; [apply Z.leb_gt in C; lia|].
           apply negb_false_iff, existsb_exists in C as (t0 & Ht0 & Hm).
           destruct (tuple_eq (sorted d) (sorted d0)) eqn:E; [|reflexivity].
           rewrite <- (Hs t0); [|apply list_elem_of_In, Ht0].
           symmetry. eapply tuple_eq_trans; eassumption.
        -- apply (He i li di ni); [lia | exact Hxi | exact Hni].
      * intros (Hn & Hs & He). split; [exact Hn|]. split; [exact Hs|].
        intros i li di ni Hi Hxi Hni.
        apply (He (S i) li di ni); [lia | exact Hxi | exact Hni].
Qed.

(** ** The order of keys *)

Lemma str_ltb_irrefl (a : pystr) : str_ltb a a = false.
Proof.
  induction a as [|x a IH]; simpl; [reflexivity|].
  rewrite N.ltb_irrefl. exact IH.
Qed.

Lemma str_ltb_trans (a b c : pystr) :
  str_ltb a b = true -> str_ltb b c = true -> str_ltb a c = true.
Proof.
  revert b c. induction a as [|x a IH]; intros [|y b] [|z c]; simpl;
    try discriminate; try reflexivity.
  destruct (N.ltb_spec x y) as [Hxy|Hxy].
  - intros _. destruct (N.ltb_spec y z) as [Hyz|Hyz].
    + intros _. destruct (N.ltb_spec x z); [reflexivity | lia].
    + destruct (N.ltb_spec z y) as [Hzy|Hzy]; [discriminate|].
      intros _. destruct (N.ltb_spec x z); [reflexivity | lia].
  - destruct (N.ltb_spec y x) as [Hyx|Hyx]; [discriminate|].
    assert (x = y) as -> by lia. intros Hab.
    destruct (N.ltb_spec y z) as [Hyz|Hyz]; [reflexivity|].
    destruct (N.ltb_spec z y) as [Hzy|Hzy]; [discriminate|].
    apply IH, Hab.
Qed.

Lemma str_ltb_total (a b : pystr) :
  a <> b -> str_ltb a b = true \/ str_ltb b a = true.
Proof.
  revert b. induction a as [|x a IH]; intros [|y b] Hne; simpl;
    [congruence | auto | auto |].
  destruct (N.ltb_spec x y) as [Hxy|Hxy]; [auto|].
  destruct (N.ltb_spec y x) as [Hyx|Hyx]; [auto|].
  assert (x = y) as -> by lia. apply IH. congruence.
Qed.

(** ** [sorted] puts the items in the order of their keys *)

Lemma insert_sorted_perm (x : item) (l : list item) :
  Permutation (insert_sorted x l) (x :: l).
Proof.
  induction l as [|y l IH]; simpl; [reflexivity|].
  destruct (item_ltb y x); [|reflexivity].
  rewrite IH. apply perm_swap.
Qed.

Lemma sorted_perm (d : list item) : Permutation (sorted d) d.
Proof.
  induction d as [|x d IH]; simpl; [reflexivity|].
  rewrite insert_sorted_perm, IH. reflexivity.
Qed.

Lemma insert_sorted_strict (x : item) (l : list item) :
  StronglySorted (fun a b : item => str_ltb (fst a) (fst b) = true) l ->
  fst x ∉ map fst l ->
  StronglySorted (fun a b : item => str_ltb (fst a) (fst b) = true)
    (insert_sorted x l).
Proof.
  induction l as [|y l IH]; simpl; intros Hs Hx.
  - apply SSorted_cons; [apply SSorted_nil | apply Forall_nil_2].
  - apply StronglySorted_inv in Hs as [Hs Hy].
    apply not_elem_of_cons in Hx as [Hne Hx].
    unfold item_ltb. destruct (str_ltb (fst y) (fst x)) eqn:E.
    + apply SSorted_cons; [apply IH; assumption|].
      rewrite insert_sorted_perm. apply Forall_cons. split; assumption.
    + assert (str_ltb (fst x) (fst y) = true) as Hxy.
      { destruct (str_ltb_total (fst x) (fst y) Hne); congruence. }
      apply SSorted_cons; [apply SSorted_cons; assumption|].
      apply Forall_cons. split; [exact Hxy|].
      eapply Forall_impl; [exact Hy|]. simpl. intros z Hz.
      eapply str_ltb_trans; eassumption.
Qed.

Lemma sorted_strict (d : list item) :
  NoDup (map fst d) ->
  StronglySorted (fun a b : item => str_ltb (fst a) (fst b) = true) (sorted d).
Proof.
  induction d as [|x d IH]; simpl; intros Hnd; [apply SSorted_nil|].
  apply NoDup_cons in Hnd as [Hx Hnd].
  apply insert_sorted_strict; [apply IH, Hnd|].
  rewrite (sorted_perm d). exact Hx.
Qed.

(** ** Looking a key up *)

Lemma dict_get_None (k : pystr) (d : dict) :
  dict_get k d = None <-> k ∉ map fst d.
Proof.
  induction d as [|[k' v] d IH]; simpl.
  - split; [intros _; apply not_elem_of_nil | reflexivity].
  - rewrite not_elem_of_cons, <- IH. case_bool_decide as E.
    + split; [discriminate | intros [H _]; congruence].
    + tauto.
Qed.

Lemma dict_get_Some (k : pystr) (v : value) (d : dict) :
  NoDup (map fst d) -> dict_get k d = Some v <-> (k, v) ∈ d.
Proof.
  induction d as [|[k' v'] d IH]; simpl; intros Hnd.
  - split; [discriminate | intros H; inversion H].
  - apply NoDup_cons in Hnd as [Hk' Hnd]. rewrite elem_of_cons.
    case_bool_decide as E.
    + subst k'. split.
      * intros [= ->]. left. reflexivity.
      * intros [[= ->]|Hin]; [reflexivity|]. exfalso. apply Hk'.
        apply list_elem_of_fmap. exists (k, v). auto.
    + rewrite (IH Hnd). split; [auto|]. intros [[= ? ?]|Hin]; [congruence|auto].
Qed.

Lemma dict_get_perm (k : pystr) (d1 d2 : dict) :
  Permutation d1 d2 -> NoDup (map fst d1) -> dict_get k d1 = dict_get k d2.
Proof.
  intros Hp Hnd1.
  assert (NoDup (map fst d2)) as Hnd2.
  { rewrite <- Hp. exact Hnd1. }
  destruct (dict_get k d1) as [v|] eqn:E1.
  - symmetry. apply (dict_get_Some _ _ _ Hnd2). rewrite <- Hp.
    apply (dict_get_Some _ _ _ Hnd1), E1.
  - symmetry. apply dict_get_None. rewrite <- Hp. apply dict_get_None, E1.
Qed.

Lemma dict_get_sorted (k : pystr) (d : dict) :
  NoDup (map fst d) -> dict_get k (sorted d) = dict_get k d.
Proof.
  intros Hnd. symmetry. apply dict_get_perm; [|exact Hnd].
  symmetry. apply sorted_perm.
Qed.

(** ** The tuple of a record compares as its fields do *)

Lemma tuple_eq_same_fields (t u : list item) :
  tuple_eq t u = true -> same_fields t u.
Proof.
  revert u. induction t as [|[k1 v] t IH]; intros [|[k2 w] u]; simpl;
    try discriminate.
  - intros _ k. exact I.
  - rewrite !andb_true_iff. intros [[E%bool_decide_eq_true Hvw] Htu] k.
    subst k2. simpl. case_bool_decide; [exact Hvw | apply IH, Htu].
Qed.

Lemma dict_get_above (k : pystr) (t : list item) :
  Forall (fun b : item => str_ltb k (fst b) = true) t -> dict_get k t = None.
Proof.
  intros H. apply dict_get_None. intros Hin.
  apply list_elem_of_fmap in Hin as ([k' v] & -> & Hin).
  rewrite Forall_forall in H. specialize (H _ Hin). simpl in H.
  rewrite str_ltb_irrefl in H. discriminate.
Qed.

Lemma same_fields_tuple_eq (t u : list item) :
  StronglySorted (fun a b : item => str_ltb (fst a) (fst b) = true) t ->
  StronglySorted (fun a b : item => str_ltb (fst a) (fst b) = true) u ->
  same_fields t u -> tuple_eq t u = true.
Proof.
  revert u. induction t as [|[k1 v] t IH]; intros [|[k2 w] u] Ht Hu Hsame.
  - reflexivity.
  - specialize (Hsame k2). simpl in Hsame.
    rewrite bool_decide_eq_true_2 in Hsame by reflexivity. destruct Hsame.
  - specialize (Hsame k1). simpl in Hsame.
    rewrite bool_decide_eq_true_2 in Hsame by reflexivity. destruct Hsame.
  - apply StronglySorted_inv in Ht as [Ht Ht1].
    apply StronglySorted_inv in Hu as [Hu Hu1]. simpl in Ht1, Hu1.
    assert (k1 = k2) as <-.
    { destruct (decide (k1 = k2)) as [E|E]; [exact E|]. exfalso.
      destruct (str_ltb_total k1 k2 E) as [Hlt|Hlt].
      - specialize (Hsame k1). simpl in Hsame.
        rewrite bool_decide_eq_true_2 in Hsame by reflexivity.
        rewrite bool_decide_eq_false_2 in Hsame by exact E.
        rewrite dict_get_above in Hsame; [exact Hsame|].
        eapply Forall_impl; [exact Hu1|]. simpl. intros z Hz.
        eapply str_ltb_trans; eassumption.
      - specialize (Hsame k2). simpl in Hsame.
        rewrite (bool_decide_eq_true_2 (k2 = k2)) in Hsame by reflexivity.
        rewrite bool_decide_eq_false_2 in Hsame by congruence.
        rewrite dict_get_above in Hsame; [exact Hsame|].
        eapply Forall_impl; [exact Ht1|]. simpl. intros z Hz.
        eapply str_ltb_trans; eassumption. }
    simpl. rewrite bool_decide_eq_true_2 by reflexivity. simpl.
    apply andb_true_iff. split.
    + specialize (Hsame k1). simpl in Hsame.
      rewrite bool_decide_eq_true_2 in Hsame by reflexivity. exact Hsame.
    + apply IH; [exact Ht | exact Hu |]. intros k.
      destruct (decide (k = k1)) as [->|E].
      * rewrite !dict_get_above by assumption. exact I.
      * specialize (Hsame k). simpl in Hsame.
        rewrite bool_decide_eq_false_2 in Hsame by exact E. exact Hsame.
Qed.

(** The tuples of two records are equal exactly when the records have the
    same fields, in whatever order the fields were inserted. *)
Lemma canonical_key (d1 d2 : dict) :
  NoDup (map fst d1) -> NoDup (map fst d2) ->
  tuple_eq (sorted d1) (sorted d2) = true <-> same_fields d1 d2.
Proof.
  intros H1 H2. split.
  - intros H k. apply tuple_eq_same_fields in H. specialize (H k).
    rewrite !dict_get_sorted in H by assumption. exact H.
  - intros H. apply same_fields_tuple_eq; [apply sorted_strict, H1 | apply sorted_strict, H2 |].
    intros k. rewrite !dict_get_sorted by assumption. apply H.
Qed.

(** ** The function *)

Lemma clean_patient_data_ok (ps : list ref) (h h' : heap) (out : list ref) :
  clean_patient_data ps h = (h', Ok out) ->
  exists seen', for_each ps ([], []) h = (h', Ok (seen', out)).
Proof.
  unfold clean_patient_data. intros H.
  apply bind_ok in H as ([seen' out0] & h1 & H1 & H). simpl in H.
  exists seen'. destruct out0; injection H as <- <-; exact H1.
Qed.

Lemma coerced_age_ok (ps : list ref) (h h' : heap) (out : list ref)
    (l : ref) (d : dict) :
  clean_patient_data ps h = (h', Ok out) ->
  l ∈ ps -> h !! l = Some d ->
  exists d' n, h' !! l = Some d' /\ dict_get (py "age") d' = Some (VInt n) /\
               coerced_age d = Ok n.
Proof.
  intros H Hl Hd. apply clean_patient_data_ok in H as (seen' & H).
  destruct (for_each_cleaned _ _ _ _ _ _ _ l H (or_introl Hl))
    as (d' & s & n & Hd' & _ & Ha).
  destruct (for_each_age _ _ _ _ _ _ _ l d H Hd) as (d'' & Hd'' & Hin & _).
  rewrite Hd' in Hd''. injection Hd'' as <-.
  exists d', n. split; [exact Hd'|]. split; [exact Ha|].
  rewrite <- (Hin Hl). unfold coerced_age. rewrite Ha. reflexivity.
Qed.

(** What the cleaned records are, on distinct references. *)
Lemma cleaned_records (ps : list ref) (h h' : heap) (out : list ref) :
  NoDup ps ->
  clean_patient_data ps h = (h', Ok out) ->
  exists recs : list (ref * (dict * Z)),
    map fst recs = ps /\
    (forall l d' n, (l, (d', n)) ∈ recs ->
       exists d, h !! l = Some d /\ normalize d = Ok (d', n) /\
                 h' !! l = Some d') /\
    out = firsts [] recs.
Proof.
  intros Hnd H. apply clean_patient_data_ok in H as (seen' & H).
  exact (for_each_pure _ _ _ _ _ _ _ Hnd H).
Qed.

Lemma lookup_recs (recs : list (ref * (dict * Z))) (ps : list ref)
    (j : nat) (l : ref) :
  map fst recs = ps -> ps !! j = Some l ->
  exists d' n, recs !! j = Some (l, (d', n)).
Proof.
  intros <- Hj. rewrite list_lookup_fmap in Hj.
  destruct (recs !! j) as [[l0 [d' n]]|]; [|discriminate].
  injection Hj as <-. eauto.
Qed.

Lemma lookup_ps (recs : list (ref * (dict * Z))) (ps : list ref)
    (i : nat) (l : ref) (x : dict * Z) :
  map fst recs = ps -> recs !! i = Some (l, x) -> ps !! i = Some l.
Proof.
  intros <- H. rewrite list_lookup_fmap, H. reflexivity.
Qed.

(** ** The age filter *)

(** C5.  When the cleaning ends without an exception, every input record
    has a coerced age [n] (its age through [int], 0 for a missing key);
    a record in the output has [18 <= n]; and, the input references being
    distinct, a record with [18 <= n] whose tuple equals the tuple of no
    other input record is in the output. *)
Theorem age_filter (ps : list ref) (h h' : heap) (out : list ref)
    (l : ref) (d : dict) :
  clean_patient_data ps h = (h', Ok out) ->
  l ∈ ps -> h !! l = Some d ->
  exists n, coerced_age d = Ok n /\
    (l ∈ out -> (18 <= n)%Z) /\
    (NoDup ps -> (18 <= n)%Z ->
     (forall l0 d0 d', l0 ∈ ps -> l0 <> l ->
        h' !! l0 = Some d0 -> h' !! l = Some d' ->
        tuple_eq (sorted d') (sorted d0) = false) ->
     l ∈ out).
Proof.
  intros H Hl Hd.
  destruct (coerced_age_ok _ _ _ _ _ _ H Hl Hd) as (d' & n & Hd' & Ha & Hn).
  exists n. split; [exact Hn|]. split.
  - intros Hout. pose proof H as H0.
    apply clean_patient_data_ok in H0 as (seen' & H0).
    destruct (for_each_kept_adult _ _ _ _ _ _ _ l H0 Hout)
      as [Hnil|(_ & d1 & n1 & Hd1 & Hn1 & Hge)]; [inversion Hnil|].
    congruence.
  - intros Hnd Hge Hother.
    destruct (cleaned_records _ _ _ _ Hnd H) as (recs & Hfst & Hrecs & ->).
    apply list_elem_of_lookup in Hl as [j Hj].
    destruct (lookup_recs _ _ _ _ Hfst Hj) as (dj & nj & Hrj).
    assert (NoDup (map fst recs)) as Hnd' by (rewrite Hfst; exact Hnd).
    apply (firsts_spec recs [] j l dj nj Hnd' Hrj).
    destruct (Hrecs _ _ _ (list_elem_of_lookup_2 _ _ _ Hrj))
      as (d0 & Hd0 & Hnorm & Hdj).
    rewrite Hd in Hd0. injection Hd0 as <-.
    apply normalize_ok in Hnorm as Hn'. destruct Hn' as (s & _ & Hn' & _).
    split; [congruence|]. split; [intros t Ht; inversion Ht|].
    intros i li di ni Hi Hri _.
    destruct (Hrecs _ _ _ (list_elem_of_lookup_2 _ _ _ Hri))
      as (d0 & _ & _ & Hdi).
    pose proof (lookup_ps _ _ _ _ _ Hfst Hri) as Hpi.
    apply (Hother li di dj); [eapply list_elem_of_lookup_2, Hpi | | exact Hdi | exact Hdj].
    intros ->. apply (NoDup_lookup _ _ _ _ Hnd Hpi) in Hj. lia.
Qed.

(** ** Duplicates *)

Lemma adult_age (d : dict) (n : Z) :
  dict_get (py "age") d = Some (VInt n) -> adult d <-> (18 <= n)%Z.
Proof.
  intros Ha. unfold adult. split.
  - intros (m & Hm & Hge). congruence.
  - intros Hge. exists n. auto.
Qed.

(** C6, as amended.  When the cleaning of distinct record objects ends
    without an exception, a record is in the output exactly when it is of
    age and no earlier record of age has the same fields, where two
    records have the same fields when they have the same keys and, under
    each key, values that [==] takes for equal (so [True] and [1], or a
    number and the float equal to it, count as equal; a NaN, which [==]
    takes for equal to nothing, counts as equal to the same object only),
    whatever the order of their fields; of records with the same fields
    only the first is kept, and a record that differs from every earlier
    one is kept. *)
Theorem duplicates_collapse (ps : list ref) (h h' : heap) (out : list ref) :
  clean_patient_data ps h = (h', Ok out) ->
  NoDup ps ->
  (forall l d, l ∈ ps -> h !! l = Some d -> NoDup (map fst d)) ->
  forall j lj dj, ps !! j = Some lj -> h' !! lj = Some dj ->
    lj ∈ out <->
    adult dj /\
    forall i li di, (i < j)%nat -> ps !! i = Some li -> h' !! li = Some di ->
      adult di -> ~ same_fields dj di.
Proof.
  intros H Hnd Hwf j lj dj Hj Hdj.
  destruct (cleaned_records _ _ _ _ Hnd H) as (recs & Hfst & Hrecs & ->).
  assert (NoDup (map fst recs)) as Hnd' by (rewrite Hfst; exact Hnd).
  assert (forall i li di ni, recs !! i = Some (li, (di, ni)) ->
            ps !! i = Some li /\ h' !! li = Some di /\
            dict_get (py "age") di = Some (VInt ni) /\ NoDup (map fst di))
    as Hrec.
  { intros i li di ni Hri.
    destruct (Hrecs _ _ _ (list_elem_of_lookup_2 _ _ _ Hri))
      as (d0 & Hd0 & Hnorm & Hdi).
    pose proof (lookup_ps _ _ _ _ _ Hfst Hri) as Hpi.
    split; [exact Hpi|]. split; [exact Hdi|]. split.
    - apply normalize_fields in Hnorm as (_ & Ha & _). exact Ha.
    - apply (normalize_NoDup _ _ _ Hnorm), (Hwf li d0); [|exact Hd0].
      eapply list_elem_of_lookup_2, Hpi. }
  destruct (lookup_recs _ _ _ _ Hfst Hj) as (dj' & nj & Hrj).
  destruct (Hrec _ _ _ _ Hrj) as (_ & Hdj' & Haj & Hkj).
  rewrite Hdj in Hdj'. injection Hdj' as <-.
  rewrite (firsts_spec recs [] j lj dj nj Hnd' Hrj), (adult_age _ _ Haj).
  split.
  - intros (Hge & _ & He). split; [exact Hge|].
    intros i li di Hi Hpi Hdi Hadult Hsame.
    destruct (lookup_recs _ _ _ _ Hfst Hpi) as (di' & ni & Hri).
    destruct (Hrec _ _ _ _ Hri) as (_ & Hdi' & Hai & Hki).
    rewrite Hdi in Hdi'. injection Hdi' as <-.
    apply (adult_age _ _ Hai) in Hadult.
    apply (canonical_key dj di Hkj Hki) in Hsame.
    rewrite (He i li di ni Hi Hri Hadult) in Hsame. discriminate.
  - intros (Hge & He). split; [exact Hge|].
    split; [intros t Ht; inversion Ht|].
    intros i li di ni Hi Hri Hni.
    destruct (Hrec _ _ _ _ Hri) as (Hpi & Hdi & Hai & Hki).
    destruct (tuple_eq (sorted dj) (sorted di)) eqn:E; [|reflexivity].
    exfalso. apply (He i li di Hi Hpi Hdi).
    + apply (adult_age _ _ Hai), Hni.
    + apply (canonical_key dj di Hkj Hki), E.
Qed.

(** ** Order *)



(** ** Mutation in place *)

(** C10.  When the cleaning ends without an exception, the store holds as
    many objects as before and those outside the input are untouched;
    every reference of the output is a reference of the input; the
    record of every input reference, kept or not, then has a title-cased
    string as its name and an integer as its age; and, the input
    references being distinct, it is the original record with its name
    replaced by the title-cased name and its age by the coerced age. *)
Theorem mutation_in_place (ps : list ref) (h h' : heap) (out : list ref) :
  clean_patient_data ps h = (h', Ok out) ->
  length h' = length h /\
  (forall l, l ∉ ps -> h' !! l = h !! l) /\
  (forall l, l ∈ out -> l ∈ ps) /\
  (forall l, l ∈ ps ->
     exists d' s n, h' !! l = Some d' /\
       dict_get (py "name") d' = Some (VStr (title s)) /\
       dict_get (py "age") d' = Some (VInt n)) /\
  (NoDup ps -> forall l d, l ∈ ps -> h !! l = Some d ->
     exists s n,
       dict_get (py "name") d = Some (VStr s) /\
       coerced_age d = Ok n /\
       h' !! l
       = Some (dict_set (py "age") (VInt n)
                 (dict_set (py "name") (VStr (title s)) d))).
Proof.
  intros H. pose proof H as H0.
  apply clean_patient_data_ok in H0 as (seen' & H0).
  split; [eapply for_each_length, H0|].
  split; [intros l Hl; eapply for_each_frame; eassumption|].
  split.
  { intros l Hl. destruct (for_each_sublist _ _ _ _ _ _ _ H0)
      as (kept & -> & Hsub).
    eapply elem_of_sublist; eassumption. }
  split.
  { intros l Hl. eapply for_each_cleaned; [exact H0 | left; exact Hl]. }
  intros Hnd l d Hl Hd.
  destruct (cleaned_records _ _ _ _ Hnd H) as (recs & Hfst & Hrecs & _).
  apply list_elem_of_lookup in Hl as [j Hj].
  destruct (lookup_recs _ _ _ _ Hfst Hj) as (d' & n & Hrj).
  destruct (Hrecs _ _ _ (list_elem_of_lookup_2 _ _ _ Hrj))
    as (d0 & Hd0 & Hnorm & Hd').
  rewrite Hd in Hd0. injection Hd0 as <-.
  apply normalize_ok in Hnorm as (s & Hs & Hn & ->).
  exists s, n. auto.
Qed.

(** ** Title case *)

Ltac ascii_cases c :=
  unfold ascii_letter, ascii_upper, ascii_lower, ascii_upper_p, ascii_lower_p;
  destruct (N.leb_spec 65 c), (N.leb_spec c 90),
           (N.leb_spec 97 c), (N.leb_spec c 122);
  cbn [andb orb];
  repeat match goal with
         | |- context [(?a <=? ?b)%N] =>
             destruct (N.leb_spec a b); cbn [andb orb]
         end;
  try reflexivity; try lia; try (exfalso; lia).

Lemma ascii_upper_bound (c : N) : (c < 128)%N -> (ascii_upper c < 128)%N.
Proof. intros H. ascii_cases c. Qed.

Lemma ascii_lower_bound (c : N) : (c < 128)%N -> (ascii_lower c < 128)%N.
Proof. intros H. ascii_cases c. Qed.

Lemma ascii_upper_idem (c : N) : ascii_upper (ascii_upper c) = ascii_upper c.
Proof. ascii_cases c. Qed.

Lemma ascii_lower_idem (c : N) : ascii_lower (ascii_lower c) = ascii_lower c.
Proof. ascii_cases c. Qed.

Lemma ascii_letter_upper (c : N) : ascii_letter (ascii_upper c) = ascii_letter c.
Proof. ascii_cases c. Qed.

Lemma ascii_letter_lower (c : N) : ascii_letter (ascii_lower c) = ascii_letter c.
Proof. ascii_cases c. Qed.

(** A second pass over the output of a pass on ASCII changes nothing: it
    meets the same letters at the same places, already in the case it
    would give them. *)
Lemma do_title_again (rest data data' : pystr) (i i' : nat) (prev : bool) :
  ascii_conformant rt ->
  Forall (fun c => (c < 128)%N) rest ->
  do_title data' i' (do_title data i rest prev) prev
  = do_title data i rest prev.
Proof.
  intros conf. revert i i' prev.
  induction rest as [|c rest IH]; intros i i' prev Hall; [reflexivity|].
  apply Forall_cons in Hall as [Hc Hall]. simpl.
  destruct (conf c Hc) as (Hcased & Htitle & Hlower).
  rewrite Hcased. destruct prev.
  - rewrite Hlower. simpl.
    destruct (conf _ (ascii_lower_bound c Hc)) as (Hcased' & _ & Hlower').
    rewrite Hlower', Hcased', ascii_lower_idem, ascii_letter_lower. simpl.
    f_equal. apply IH, Hall.
  - rewrite Htitle. simpl.
    destruct (conf _ (ascii_upper_bound c Hc)) as (Hcased' & Htitle' & _).
    rewrite Htitle', Hcased', ascii_upper_idem, ascii_letter_upper. simpl.
    f_equal. apply IH, Hall.
Qed.

(** C9, as amended.  On a name made of ASCII characters the title-casing
    is idempotent, whatever the interpreter's case data is elsewhere. *)
Theorem title_idempotent_ascii (s : pystr) :
  ascii_conformant rt ->
  Forall (fun c => (c < 128)%N) s ->
  title (title s) = title s.
Proof.
  intros conf Hs. unfold title at 1 3. apply do_title_again; assumption.
Qed.

End CleanerFacts.

(* ===================================================================== *)
(** * The properties on the samples *)
(* ===================================================================== *)

Section Samples.
Import Cohort Cleaner.

Lemma sample_ascii_conformant : ascii_conformant sample.
Proof.
  intros c Hc. simpl.
  assert ((c =? 304)%N = false) as E by (apply N.eqb_neq; lia).
  rewrite E, orb_false_r. auto.
Qed.

(** C9, the claim as stated fails: the title case of a, U+0130, b is
    A, i, U+0307, b, and the title case of that is A, i, U+0307, B, the
    combining dot, which is not cased, now standing before the b. *)
Lemma title_not_idempotent :
  @title sample dotted_name = [65; 105; 775; 98]%N /\
  @title sample (@title sample dotted_name) = [65; 105; 775; 66]%N /\
  @title sample (@title sample dotted_name) <> @title sample dotted_name.
Proof.
  split; [reflexivity|]. split; [reflexivity|]. discriminate.
Qed.

Lemma title_idempotent_ascii_witness :
  @title sample (@title sample (py "john smith")) = @title sample (py "john smith").
Proof.
  apply (@title_idempotent_ascii sample (py "john smith")).
  - exact sample_ascii_conformant.
  - vm_compute. repeat constructor.
Defined.

Ltac by_computation := apply (bool_decide_unpack _); vm_compute; exact I.

(** The ages 18, 17 and none: the record of age 18 is the one kept, and
    its coerced age is 18 or more. *)
Lemma age_filter_witness :
  exists n,
    @coerced_age sample (patient "ann lee" (VInt 18) "female" "flu") = Ok n /\
    (18 <= n)%Z.
Proof.
  destruct (@age_filter sample [0; 1; 2]%nat ages_heap
              (fst (@clean_patient_data sample [0; 1; 2]%nat ages_heap))
              [0%nat] 0%nat (patient "ann lee" (VInt 18) "female" "flu"))
    as (n & Hn & Hout & _).
  - vm_compute. reflexivity.
  - by_computation.
  - reflexivity.
  - exists n. split; [exact Hn|]. apply Hout. by_computation.
Defined.

(** The record of age 17 is dropped, and yet overwritten in place: its
    name is title-cased in the store after the call. *)
Lemma mutation_in_place_witness :
  exists s n,
    @dict_get (py "name") (patient "bob ray" (VInt 17) "male" "flu")
      = Some (VStr s) /\
    @coerced_age sample (patient "bob ray" (VInt 17) "male" "flu") = Ok n /\
    fst (@clean_patient_data sample [0; 1; 2]%nat ages_heap) !! 1%nat
    = Some (dict_set (py "age") (VInt n)
              (dict_set (py "name") (VStr (@title sample s))
                 (patient "bob ray" (VInt 17) "male" "flu"))).
Proof.
  destruct (@mutation_in_place sample [0; 1; 2]%nat ages_heap
              (fst (@clean_patient_data sample [0; 1; 2]%nat ages_heap))
              [0%nat])
    as (_ & _ & _ & _ & Hexact).
  - vm_compute. reflexivity.
  - apply (Hexact ltac:(by_computation) 1%nat); [by_computation | reflexivity].
Defined.

(** C6, the claim as stated fails: two records that differ in the field
    smoker, [True] in the one and [1] in the other, and only the first is
    in the output. *)
Lemma bool_and_int_collapse :
  exists h' d0 d1,
    @clean_patient_data sample [0; 1]%nat smoker_heap = (h', Ok [0%nat]) /\
    h' !! 0%nat = Some d0 /\ h' !! 1%nat = Some d1 /\
    dict_get (py "smoker") d0 = Some (VBool true) /\
    dict_get (py "smoker") d1 = Some (VInt 1) /\
    VBool true <> VInt 1.
Proof.
  eexists _, _, _. split; [vm_compute; reflexivity|].
  split; [reflexivity|]. split; [reflexivity|].
  split; [reflexivity|]. split; [reflexivity|]. discriminate.
Qed.

(** The record of the docstring, the same record with its fields in
    another order, and a record with another diagnosis: the third is kept
    because it has the fields of neither of the two before it. *)
Lemma duplicates_collapse_witness :
  adult (patient "John Smith" (VInt 32) "male" "cold") /\
  forall i li di, (i < 2)%nat -> [0; 1; 2]%nat !! i = Some li ->
    fst (@clean_patient_data sample [0; 1; 2]%nat john_heap) !! li = Some di ->
    adult di ->
    ~ same_fields (patient "John Smith" (VInt 32) "male" "cold") di.
Proof.
  apply (@duplicates_collapse sample [0; 1; 2]%nat john_heap
           (fst (@clean_patient_data sample [0; 1; 2]%nat john_heap))
           [0; 2]%nat ltac:(vm_compute; reflexivity) ltac:(by_computation)
         ) with (j := 2%nat) (lj := 2%nat).
  - intros l d Hl Hd.
    repeat (apply elem_of_cons in Hl as [->|Hl]); [| | |inversion Hl];
      injection Hd as <-; by_computation.
  - reflexivity.
  - reflexivity.
  - by_computation.
Defined.

End Samples.

(* ===================================================================== *)
(** * Further properties of the cohort aggregator *)
(* ===================================================================== *)

Section CohortBehaviour.
Import Cohort.
Context {engine : Engine}.
Local Open Scope Q_scope.

Lemma labels_of_query (rs : list Row) :
  map bmi_range (cohort_query rs)
  = map fst (group_by (with_bmi_range (select_columns (filter_bmi rs)))).
Proof.
  unfold cohort_query. rewrite map_map. reflexivity.
Qed.

Lemma labelled_elem (rs : list Row) (r : Row) (k : string) :
  (r, k) ∈ with_bmi_range (select_columns (filter_bmi rs)) <->
  r ∈ rs /\ in_closed_10_60 r = true /\ bmi_range_of (BMI r) = k.
Proof.
  rewrite select_columns_id, filter_bmi_closed. unfold with_bmi_range.
  rewrite list_elem_of_fmap. split.
  - intros (r' & [= <- <-] & Hin).
    apply list_elem_of_In, filter_In in Hin as [Hin Hr].
    split; [apply list_elem_of_In, Hin | auto].
  - intros (Hin & Hr & <-). exists r. split; [reflexivity|].
    apply list_elem_of_In, filter_In. split; [apply list_elem_of_In, Hin | exact Hr].
Qed.

Lemma one_row_labels_NoDup (rs : list Row) :
  NoDup (map bmi_range (cohort_query rs)).
Proof.
  rewrite labels_of_query.
  apply (groups_of_group_by
           (with_bmi_range (select_columns (filter_bmi rs)))).
Qed.

(** X1.  The result has one row per label: no two of its rows carry the
    same label, and a label is in the result exactly when some input row
    with BMI in [10, 60] is given that label. *)
Theorem one_row_per_label (rs : list Row) :
  NoDup (map bmi_range (cohort_query rs)) /\
  forall k, k ∈ map bmi_range (cohort_query rs) <->
    exists r, r ∈ rs /\ in_closed_10_60 r = true /\ bmi_range_of (BMI r) = k.
Proof.
  rewrite labels_of_query.
  destruct (groups_of_group_by
              (with_bmi_range (select_columns (filter_bmi rs))))
    as (Hnd & Hcov & Hgrp).
  split; [exact Hnd|]. intros k. split.
  - intros Hk. apply list_elem_of_fmap in Hk as ([k' ms] & -> & Hin).
    destruct (Hgrp _ _ Hin) as [Hms Hne]. simpl.
    destruct ms as [|r ms]; [congruence|].
    assert (r ∈ rows_with k' (with_bmi_range (select_columns (filter_bmi rs))))
      as Hr by (rewrite <- Hms; left).
    unfold rows_with in Hr. apply list_elem_of_fmap in Hr as ([r' k''] & -> & Hr).
    apply list_elem_of_In, filter_In in Hr as [Hr Hk]. simpl in Hk.
    apply String.eqb_eq in Hk as ->.
    apply list_elem_of_In, labelled_elem in Hr. exists r'. exact Hr.
  - intros (r & Hr). apply labelled_elem in Hr. apply (Hcov _ Hr).
Qed.

(** X2.  The result has at most four rows, and each of them counts at
    least one patient. *)
Theorem at_most_four_rows (rs : list Row) :
  (length (cohort_query rs) <= 4)%nat /\
  forall g, g ∈ cohort_query rs -> (1 <= patient_count g)%nat.
Proof.
  split.
  - rewrite <- (length_map bmi_range).
    change 4%nat with (length ["Underweight"; "Normal"; "Overweight"; "Obese"]%string).
    apply submseteq_length, NoDup_submseteq.
    + apply one_row_labels_NoDup.
    + intros k Hk. rewrite labels_of_query in Hk.
      apply list_elem_of_fmap in Hk as ([k' ms] & -> & Hin). simpl.
      destruct (groups_of_group_by
                  (with_bmi_range (select_columns (filter_bmi rs))))
        as (_ & _ & Hgrp).
      destruct (Hgrp _ _ Hin) as [Hms Hne].
      destruct ms as [|r ms]; [congruence|].
      assert (r ∈ rows_with k' (with_bmi_range (select_columns (filter_bmi rs))))
        as Hr by (rewrite <- Hms; left).
      unfold rows_with in Hr.
      apply list_elem_of_fmap in Hr as ([r' k''] & -> & Hr).
      apply list_elem_of_In, filter_In in Hr as [Hr Hk]. simpl in Hk.
      apply String.eqb_eq in Hk as ->.
      apply list_elem_of_In, labelled_elem in Hr as (_ & _ & <-).
      apply bmi_range_of_total.
  - unfold cohort_query. intros g Hg.
    apply list_elem_of_fmap in Hg as ([k ms] & -> & Hin).
    destruct (groups_of_group_by
                (with_bmi_range (select_columns (filter_bmi rs))))
      as (_ & _ & Hgrp).
    destruct (Hgrp _ _ Hin) as [_ Hne]. simpl.
    destruct ms; [congruence | simpl; lia].
Qed.

(** X3.  On a file that parses and has the three columns, each of a
    numeric type, the call returns the aggregates of its rows, and the
    disk afterwards is the disk before without the path of the Parquet
    file: whatever was at that path before the call is gone as well. *)
Theorem analyze_returns (input_file : string) (disk : gmap string file)
    (df : DataFrame) :
  disk !! input_file = Some (CsvFile df) ->
  has_column "BMI" df = true ->
  has_column "Glucose" df = true ->
  has_column "Age" df = true ->
  numeric BMI df = true ->
  numeric Glucose df = true ->
  numeric Age df = true ->
  analyze_patient_cohorts input_file disk
  = (delete parquet_file disk, Ok (cohort_query (rows df))).
Proof.
  intros Hf Hb Hg Ha Nb Ng Na. apply (analyze_success _ _ df); [exact Hf|].
  apply collect_ok; assumption.
Qed.

(** X4.  Whatever the outcome of the call, every path other than the
    path of the Parquet file holds afterwards what it held before. *)
Theorem other_paths_untouched (input_file : string)
    (disk : gmap string file) (path : string) :
  path <> parquet_file ->
  fst (analyze_patient_cohorts input_file disk) !! path = disk !! path.
Proof.
  intros Hne. unfold analyze_patient_cohorts.
  destruct (exists_path input_file disk); simpl; [|reflexivity].
  destruct (read_csv input_file disk) as [df|e]; simpl; [|reflexivity].
  unfold write_parquet, remove.
  destruct (scan_parquet _ _) as [lazy|e]; simpl.
  - destruct (collect lazy) as [res|e]; simpl.
    + destruct (exists_path _ _).
      * rewrite lookup_delete_ne, lookup_insert_ne by congruence. reflexivity.
      * rewrite lookup_insert_ne by congruence. reflexivity.
    + rewrite lookup_insert_ne by congruence. reflexivity.
  - rewrite lookup_insert_ne by congruence. reflexivity.
Qed.

(** ** A column without a value *)

(** X28.  A file in which the BMI, the Glucose or the Age column holds no
    value at all, as in a file that has only the header line, makes the
    call fail: the column is read with the type String, the query raises,
    not for a missing file, and the Parquet file is left on the disk. *)
Theorem empty_column_fails (input_file : string) (disk : gmap string file)
    (df : DataFrame) :
  disk !! input_file = Some (CsvFile df) ->
  values BMI (rows df) = [] \/ values Glucose (rows df) = [] \/
    values Age (rows df) = [] ->
  exists e,
    analyze_patient_cohorts input_file disk
    = (<[parquet_file := ParquetFile df]> disk, Err e) /\
    forall path, e <> FileNotFoundError path.
Proof.
  intros Hf Hempty.
  assert (forall name column unsupported,
            values column (rows df) = [] ->
            column_failure name column unsupported df <> []) as Hcol.
  { intros name column unsupported Hv. unfold column_failure, numeric.
    destruct (has_column name df); simpl; [|discriminate].
    rewrite (string_when_empty _ Hv). discriminate. }
  destruct (collect df) as [res|e] eqn:Ec.
  - exfalso. unfold collect in Ec.
    destruct (plan_failures df) as [|e0 es] eqn:Ep; [|discriminate].
    unfold plan_failures in Ep.
    apply app_eq_nil in Ep as [E1 Ep]. apply app_eq_nil in Ep as [E2 E3].
    destruct Hempty as [H|[H|H]].
    + exact (Hcol _ _ _ H E1).
    + exact (Hcol _ _ _ H E2).
    + exact (Hcol _ _ _ H E3).
  - exists e. split; [exact (analyze_failure _ _ df e Hf Ec)|].
    intros path. apply (plan_failures_found df), collect_failure, Ec.
Qed.

End CohortBehaviour.

(* ===================================================================== *)
(** * Further properties of the record cleaner *)
(* ===================================================================== *)

Section CleanerBehaviour.
Import Cleaner.
Context {rt : Interpreter}.

(** ** What the returned records look like *)

(** X6.  When the cleaning ends without an exception, every record it
    returns has, in the store, a title-cased string as its name and an
    integer of 18 or more as its age. *)
Theorem returned_records_clean (ps : list ref) (h h' : heap) (out : list ref)
    (l : ref) :
  clean_patient_data ps h = (h', Ok out) ->
  l ∈ out ->
  exists d' s n, h' !! l = Some d' /\
    dict_get (py "name") d' = Some (VStr (title s)) /\
    dict_get (py "age") d' = Some (VInt n) /\ (18 <= n)%Z.
Proof.
  intros H Hl. apply clean_patient_data_ok in H as (seen' & H).
  destruct (for_each_kept_adult _ _ _ _ _ _ _ l H Hl)
    as [Hnil|(Hin & d0 & n0 & Hd0 & Hn0 & Hge)]; [inversion Hnil|].
  destruct (for_each_cleaned _ _ _ _ _ _ _ l H (or_introl Hin))
    as (d' & s & n & Hd' & Hs & Ha).
  destruct (for_each_age _ _ _ _ _ _ _ l d0 H Hd0) as (d'' & Hd'' & Hage & _).
  rewrite Hd' in Hd''. injection Hd'' as <-.
  exists d', s, n. split; [exact Hd'|]. split; [exact Hs|]. split; [exact Ha|].
  specialize (Hage Hin). unfold coerced_age in Hage at 1.
  rewrite Ha in Hage. simpl in Hage. congruence.
Qed.

(** Fields other than name and age are read-only for the loop. *)
Lemma for_each_other_keys (ps : list ref) (seen seen' : list (list item))
    (out out' : list ref) (h h' : heap) (l : ref) (d : dict) (k : pystr) :
  for_each ps (seen, out) h = (h', Ok (seen', out')) ->
  h !! l = Some d -> k <> py "name" -> k <> py "age" ->
  exists d', h' !! l = Some d' /\ dict_get k d' = dict_get k d.
Proof.
  intros H Hd Hk1 Hk2. revert seen out h d H Hd.
  induction ps as [|p rest IH]; intros seen out h d H Hd.
  - injection H as <- _ _. exists d. auto.
  - apply for_each_cons_ok in H as (seen1 & out1 & h1 & Hb & H).
    apply loop_body_ok in Hb as (dp & dp' & n & Hp & Hnorm & -> & _).
    destruct (decide (l = p)) as [->|Hne].
    + rewrite Hp in Hd. injection Hd as ->.
      destruct (IH _ _ _ dp' H (lookup_insert_same _ _ _ _ Hp))
        as (d' & Hd' & Hget).
      exists d'. split; [exact Hd'|]. rewrite Hget.
      apply normalize_ok in Hnorm as (s & _ & _ & ->).
      rewrite !dict_get_set_ne by congruence. reflexivity.
    + apply (IH _ _ _ d H). rewrite <- Hd.
      apply list_lookup_insert_ne. congruence.
Qed.

(** X7.  When the cleaning ends without an exception, every record of the
    store, returned or not, has under every key other than name and age
    the value it had before: gender, diagnosis and any further field pass
    through unchanged. *)
Theorem other_fields_preserved (ps : list ref) (h h' : heap) (out : list ref)
    (l : ref) (d : dict) (k : pystr) :
  clean_patient_data ps h = (h', Ok out) ->
  h !! l = Some d -> k <> py "name" -> k <> py "age" ->
  exists d', h' !! l = Some d' /\ dict_get k d' = dict_get k d.
Proof.
  intros H. apply clean_patient_data_ok in H as (seen' & H).
  eapply for_each_other_keys, H.
Qed.

(** X8.  A record without the key age is given the age 0 and is not
    returned; on distinct references its fields keep their order and the
    new field age comes last. *)
Theorem missing_age_is_zero (ps : list ref) (h h' : heap) (out : list ref)
    (l : ref) (d : dict) :
  clean_patient_data ps h = (h', Ok out) ->
  l ∈ ps -> h !! l = Some d -> dict_get (py "age") d = None ->
  (l ∉ out) /\
  exists d', h' !! l = Some d' /\
    dict_get (py "age") d' = Some (VInt 0) /\
    (NoDup ps -> map fst d' = map fst d ++ [py "age"]).
Proof.
  intros H Hl Hd Hnone.
  assert (coerced_age d = Ok 0%Z) as Hzero.
  { unfold coerced_age. rewrite Hnone. reflexivity. }
  destruct (coerced_age_ok _ _ _ _ _ _ H Hl Hd) as (d' & n & Hd' & Ha & Hn).
  assert (n = 0%Z) as -> by congruence.
  split.
  - intros Hout. pose proof H as H0.
    apply clean_patient_data_ok in H0 as (seen' & H0).
    destruct (for_each_kept_adult _ _ _ _ _ _ _ l H0 Hout)
      as [Hnil|(_ & d1 & n1 & Hd1 & Hn1 & Hge)]; [inversion Hnil|].
    rewrite Hd in Hd1. injection Hd1 as <-. rewrite Hzero in Hn1.
    injection Hn1 as <-. lia.
  - exists d'. split; [exact Hd'|]. split; [exact Ha|]. intros Hnd.
    destruct (cleaned_records _ _ _ _ Hnd H) as (recs & Hfst & Hrecs & _).
    apply list_elem_of_lookup in Hl as [j Hj].
    destruct (lookup_recs _ _ _ _ Hfst Hj) as (dj & nj & Hrj).
    destruct (Hrecs _ _ _ (list_elem_of_lookup_2 _ _ _ Hrj))
      as (d0 & Hd0 & Hnorm & Hdj).
    rewrite Hd in Hd0. injection Hd0 as <-.
    rewrite Hd' in Hdj. injection Hdj as <-.
    apply normalize_ok in Hnorm as (s & Hs & _ & ->).
    rewrite !dict_set_keys.
    assert (py "name" ∈ map fst d) as Hname.
    { destruct (decide (py "name" ∈ map fst d)) as [Hin|Hin]; [exact Hin|].
      apply dict_get_None in Hin. congruence. }
    rewrite (bool_decide_eq_true_2 _ Hname).
    apply dict_get_None in Hnone.
    rewrite (bool_decide_eq_false_2 _ Hnone). reflexivity.
Qed.

(** ** No duplicates among the returned records *)

Lemma py_eq_sym (a b : value) : py_eq a b = py_eq b a.
Proof.
  unfold py_eq.
  destruct (as_number a) as [x|] eqn:Ea, (as_number b) as [y|] eqn:Eb;
    try reflexivity.
  - apply eq_true_iff_eq. rewrite !Qeq_bool_iff. split; intros H; symmetry; exact H.
  - destruct a, b; try discriminate; try reflexivity;
      try (apply eq_true_iff_eq; rewrite !bool_decide_eq_true; split; congruence).
    destruct negative, negative0; reflexivity.
Qed.

Lemma same_fields_sym (d1 d2 : dict) : same_fields d1 d2 -> same_fields d2 d1.
Proof.
  intros H k. specialize (H k).
  destruct (dict_get k d1), (dict_get k d2); try exact H.
  rewrite py_eq_sym. exact H.
Qed.

(** Two references selected by [firsts] have records with different
    fields. *)
Lemma firsts_differ (recs : list (ref * (dict * Z))) (h' : heap)
    (li lj : ref) (di dj : dict) :
  NoDup (map fst recs) ->
  (forall l d n, (l, (d, n)) ∈ recs ->
     h' !! l = Some d /\ NoDup (map fst d)) ->
  li ∈ firsts [] recs -> lj ∈ firsts [] recs -> li <> lj ->
  h' !! li = Some di -> h' !! lj = Some dj ->
  ~ same_fields di dj.
Proof.
  intros Hnd' Hk Hi Hj Hne Hdi Hdj.
  assert (forall l, l ∈ firsts [] recs ->
            exists a d n, recs !! a = Some (l, (d, n)) /\ h' !! l = Some d /\
                          NoDup (map fst d)) as Hidx.
  { intros l Hl. apply firsts_subset in Hl.
    apply list_elem_of_fmap in Hl as ([l0 [d n]] & -> & Hin).
    pose proof Hin as Hin'. apply list_elem_of_lookup in Hin' as [a Ha].
    destruct (Hk _ _ _ Hin) as [Hd Hkeys]. exists a, d, n. auto. }
  destruct (Hidx _ Hi) as (a & di' & ni & Ha & Hdi' & Hki).
  destruct (Hidx _ Hj) as (b & dj' & nj & Hb & Hdj' & Hkj).
  pose proof (eq_trans (eq_sym Hdi) Hdi') as [= <-].
  pose proof (eq_trans (eq_sym Hdj) Hdj') as [= <-].
  apply (firsts_spec recs [] a li di ni Hnd' Ha) in Hi as (Hgi & _ & Hei).
  apply (firsts_spec recs [] b lj dj nj Hnd' Hb) in Hj as (Hgj & _ & Hej).
  intros Hsame.
  destruct (Nat.lt_trichotomy a b) as [Hlt|[->|Hlt]].
  - apply same_fields_sym in Hsame.
    apply (canonical_key dj di Hkj Hki) in Hsame.
    rewrite (Hej a li di ni Hlt Ha Hgi) in Hsame. discriminate.
  - rewrite Ha in Hb. injection Hb as -> _ _. congruence.
  - apply (canonical_key di dj Hki Hkj) in Hsame.
    rewrite (Hei b lj dj nj Hlt Hb Hgj) in Hsame. discriminate.
Qed.

Lemma cleaned_records_keys (ps : list ref) (h h' : heap)
    (recs : list (ref * (dict * Z))) :
  map fst recs = ps ->
  (forall l d, l ∈ ps -> h !! l = Some d -> NoDup (map fst d)) ->
  (forall l d' n, (l, (d', n)) ∈ recs ->
     exists d, h !! l = Some d /\ normalize d = Ok (d', n) /\
               h' !! l = Some d') ->
  forall l d n, (l, (d, n)) ∈ recs -> h' !! l = Some d /\ NoDup (map fst d).
Proof.
  intros Hfst Hwf Hrecs l d n Hin.
  destruct (Hrecs _ _ _ Hin) as (d0 & Hd0 & Hnorm & Hd).
  split; [exact Hd|].
  apply (normalize_NoDup _ _ _ Hnorm), (Hwf l d0); [|exact Hd0].
  rewrite <- Hfst. apply list_elem_of_fmap. exists (l, (d, n)). auto.
Qed.

(** X9.  When the cleaning of distinct record objects ends without an
    exception, no two of the returned records have the same fields. *)
Theorem returned_records_differ (ps : list ref) (h h' : heap) (out : list ref)
    (li lj : ref) (di dj : dict) :
  clean_patient_data ps h = (h', Ok out) ->
  NoDup ps ->
  (forall l d, l ∈ ps -> h !! l = Some d -> NoDup (map fst d)) ->
  li ∈ out -> lj ∈ out -> li <> lj ->
  h' !! li = Some di -> h' !! lj = Some dj ->
  ~ same_fields di dj.
Proof.
  intros H Hnd Hwf Hi Hj Hne Hdi Hdj.
  destruct (cleaned_records _ _ _ _ Hnd H) as (recs & Hfst & Hrecs & ->).
  apply (firsts_differ recs h' li lj); try assumption.
  - rewrite Hfst. exact Hnd.
  - exact (cleaned_records_keys ps h h' recs Hfst Hwf Hrecs).
Qed.

(** ** Runs that end in an exception *)

Lemma for_each_app (a b : list ref) (l : locals) (h : heap) :
  for_each (a ++ b) l h
  = match for_each a l h with
    | (h1, Ok l1) => for_each b l1 h1
    | (h1, Err e) => (h1, Err e)
    end.
Proof.
  revert l h. induction a as [|p a IH]; intros l h; [reflexivity|].
  simpl. unfold bind. destruct (loop_body p l h) as [h1 [l1|e]];
    [apply IH | reflexivity].
Qed.

Lemma clean_patient_data_run (ps : list ref) (h : heap) :
  clean_patient_data ps h
  = match for_each ps ([], []) h with
    | (h1, Ok l1) => (h1, Ok (snd l1))
    | (h1, Err e) => (h1, Err e)
    end.
Proof.
  unfold clean_patient_data, bind.
  destruct (for_each ps ([], []) h) as [h1 [[seen out]|e]]; [|reflexivity].
  simpl. destruct out; reflexivity.
Qed.

(** The run over a list stops in the turn of the first record that
    raises, with the store that turn leaves. *)
Lemma clean_patient_data_stops (before after : list ref) (p : ref)
    (h h1 h2 : heap) (out1 : list ref) (e : exn) :
  clean_patient_data before h = (h1, Ok out1) ->
  (forall l, loop_body p l h1 = (h2, Err e)) ->
  clean_patient_data (before ++ p :: after) h = (h2, Err e).
Proof.
  intros H Hp. apply clean_patient_data_ok in H as (seen1 & H).
  rewrite clean_patient_data_run, for_each_app, H.
  change (for_each (p :: after) (seen1, out1) h1)
    with (bind (loop_body p (seen1, out1))
            (fun l' => for_each after l') h1).
  unfold bind. rewrite Hp. reflexivity.
Qed.

Lemma loop_body_no_name (p : ref) (l : locals) (h : heap) (d : dict) :
  h !! p = Some d -> dict_get (py "name") d = None ->
  loop_body p l h = (h, Err (KeyError (py "name"))).
Proof.
  intros Hd Hn. destruct l as [seen out].
  unfold loop_body, bind, getitem. rewrite Hd, Hn. reflexivity.
Qed.

Lemma loop_body_bad_name (p : ref) (l : locals) (h : heap) (d : dict)
    (v : value) :
  h !! p = Some d -> dict_get (py "name") d = Some v ->
  (forall s, v <> VStr s) ->
  loop_body p l h = (h, Err AttributeError).
Proof.
  intros Hd Hn Hv. destruct l as [seen out].
  unfold loop_body, bind, getitem. rewrite Hd, Hn.
  destruct v; try reflexivity. exfalso. eapply Hv. reflexivity.
Qed.

Lemma loop_body_bad_age (p : ref) (l : locals) (h : heap) (d : dict)
    (s : pystr) (e : exn) :
  h !! p = Some d -> dict_get (py "name") d = Some (VStr s) ->
  coerced_age d = Err e ->
  loop_body p l h
  = (<[p := dict_set (py "name") (VStr (title s)) d]> h, Err e).
Proof.
  intros Hd Hn Ha. destruct l as [seen out].
  unfold loop_body, bind, getitem. rewrite Hd, Hn. simpl.
  unfold ret, setitem. rewrite Hd. unfold get.
  rewrite (lookup_insert_same _ _ _ _ Hd).
  unfold coerced_age in Ha.
  rewrite dict_get_set_ne by exact name_neq_age.
  destruct (dict_get (py "age") d) as [v|]; simpl in Ha;
    [|discriminate Ha].
  unfold lift. rewrite Ha. reflexivity.
Qed.

Lemma loop_body_unhashable (p : ref) (l : locals) (h : heap) (d d' : dict)
    (n : Z) :
  h !! p = Some d -> normalize d = Ok (d', n) -> (18 <= n)%Z ->
  forallb (fun kv : item => hashable (snd kv)) (sorted d') = false ->
  loop_body p l h = (<[p := d']> h, Err TypeError).
Proof.
  intros Hd Hnorm Hge Hhash. destruct l as [seen out].
  apply normalize_ok in Hnorm as (s & Hn & Ha & ->).
  unfold loop_body, bind, getitem. rewrite Hd, Hn. simpl.
  unfold ret, setitem. rewrite Hd. unfold get.
  rewrite (lookup_insert_same _ _ _ _ Hd).
  unfold coerced_age in Ha.
  rewrite dict_get_set_ne by exact name_neq_age.
  apply Z.leb_le in Hge.
  destruct (dict_get (py "age") d) as [v|];
    [change (default (VInt 0) (Some v)) with v in Ha
    |change (default (VInt 0) None) with (VInt 0) in Ha];
    unfold lift;
    rewrite Ha; rewrite (lookup_insert_same _ _ _ _ Hd), insert_insert_same;
    rewrite Hge; unfold items; rewrite (lookup_insert_same _ _ _ _ Hd);
    unfold contains;
    match goal with
    | |- context [forallb ?f ?t] =>
        replace (forallb f t) with false by (symmetry; exact Hhash)
    end; reflexivity.
Qed.

(** X10.  A record without the key name ends the run with a KeyError, and
    a record whose name is not a string ends it with an AttributeError;
    nothing is returned, and the store is left as the cleaning of the
    records before it has made it: those are overwritten, this record and
    the ones after it are not. *)
Theorem name_missing_or_not_a_string (before after : list ref) (p : ref)
    (h h1 : heap) (out1 : list ref) (d : dict) :
  clean_patient_data before h = (h1, Ok out1) ->
  h1 !! p = Some d ->
  (dict_get (py "name") d = None ->
     clean_patient_data (before ++ p :: after) h
     = (h1, Err (KeyError (py "name")))) /\
  (forall v, dict_get (py "name") d = Some v -> (forall s, v <> VStr s) ->
     clean_patient_data (before ++ p :: after) h = (h1, Err AttributeError)).
Proof.
  intros H Hd. split.
  - intros Hn. apply (clean_patient_data_stops _ _ _ _ h1 _ out1 _ H).
    intros l. apply (loop_body_no_name _ _ _ d); assumption.
  - intros v Hn Hv. apply (clean_patient_data_stops _ _ _ _ h1 _ out1 _ H).
    intros l. apply (loop_body_bad_name _ _ _ d v); assumption.
Qed.

(** X11.  A record whose age [int] cannot read ends the run with the
    exception of [int], after its name has been overwritten with the
    title-cased name: the store holds that half-cleaned record. *)
Theorem age_not_coercible (before after : list ref) (p : ref)
    (h h1 : heap) (out1 : list ref) (d : dict) (s : pystr) (e : exn) :
  clean_patient_data before h = (h1, Ok out1) ->
  h1 !! p = Some d ->
  dict_get (py "name") d = Some (VStr s) ->
  coerced_age d = Err e ->
  clean_patient_data (before ++ p :: after) h
  = (<[p := dict_set (py "name") (VStr (title s)) d]> h1, Err e).
Proof.
  intros H Hd Hn Ha. apply (clean_patient_data_stops _ _ _ _ h1 _ out1 _ H).
  intros l. apply loop_body_bad_age; assumption.
Qed.

Lemma dict_get_elem (k : pystr) (v : value) (d : dict) :
  dict_get k d = Some v -> (k, v) ∈ d.
Proof.
  induction d as [|[k' v'] d IH]; simpl; [discriminate|].
  case_bool_decide as E.
  - intros [= ->]. subst k'. left.
  - intros H. right. apply IH, H.
Qed.

(** X12.  A record of age 18 or more that holds a list or a dict under
    some key other than name and age ends the run with a TypeError, when
    its tuple is hashed; by then the record has been cleaned in the
    store. *)
Theorem unhashable_field (before after : list ref) (p : ref)
    (h h1 : heap) (out1 : list ref) (d : dict) (s : pystr) (n : Z)
    (k : pystr) (v : value) :
  clean_patient_data before h = (h1, Ok out1) ->
  h1 !! p = Some d ->
  dict_get (py "name") d = Some (VStr s) ->
  coerced_age d = Ok n -> (18 <= n)%Z ->
  k <> py "name" -> k <> py "age" ->
  dict_get k d = Some v -> hashable v = false ->
  clean_patient_data (before ++ p :: after) h
  = (<[p := dict_set (py "age") (VInt n)
             (dict_set (py "name") (VStr (title s)) d)]> h1,
     Err TypeError).
Proof.
  intros H Hd Hn Ha Hge Hk1 Hk2 Hk Hv.
  apply (clean_patient_data_stops _ _ _ _ h1 _ out1 _ H). intros l.
  apply (loop_body_unhashable _ _ _ d _ n); [exact Hd | | exact Hge |].
  - unfold normalize. rewrite Hn. unfold coerced_age in *.
    rewrite dict_get_set_ne by exact name_neq_age. rewrite Ha. reflexivity.
  - apply not_true_is_false. intros Hall.
    rewrite forallb_forall in Hall.
    assert ((k, v) ∈ sorted (dict_set (py "age") (VInt n)
                               (dict_set (py "name") (VStr (title s)) d)))
      as Hin.
    { rewrite sorted_perm. apply dict_get_elem.
      rewrite !dict_get_set_ne by congruence. exact Hk. }
    apply list_elem_of_In, Hall in Hin. simpl in Hin. congruence.
Qed.

(** ** Names that differ in the case of their letters *)

Ltac ascii_ranges c :=
  unfold ascii_letter, ascii_upper, ascii_lower, ascii_upper_p, ascii_lower_p;
  destruct (N.leb_spec 65 c), (N.leb_spec c 90),
           (N.leb_spec 97 c), (N.leb_spec c 122);
  cbn [andb orb];
  repeat match goal with
         | |- context [(?a <=? ?b)%N] =>
             destruct (N.leb_spec a b); cbn [andb orb]
         end;
  try reflexivity; try lia.

Lemma ascii_upper_lower (c : N) : ascii_upper (ascii_lower c) = ascii_upper c.
Proof. ascii_ranges c. Qed.

Lemma ascii_lower_upper (c : N) : ascii_lower (ascii_upper c) = ascii_lower c.
Proof. ascii_ranges c. Qed.

(** A pass over ASCII text only looks at which characters are letters. *)
Lemma do_title_recased (f : N -> N) (rest data data' : pystr) (i i' : nat)
    (prev : bool) :
  ascii_conformant rt ->
  (forall c, (c < 128)%N ->
     (f c < 128)%N /\ ascii_lower (f c) = ascii_lower c /\
     ascii_upper (f c) = ascii_upper c /\ ascii_letter (f c) = ascii_letter c) ->
  Forall (fun c => (c < 128)%N) rest ->
  do_title data' i' (map f rest) prev = do_title data i rest prev.
Proof.
  intros conf Hf. revert i i' prev.
  induction rest as [|c rest IH]; intros i i' prev Hall; [reflexivity|].
  apply Forall_cons in Hall as [Hc Hall]. simpl.
  destruct (Hf c Hc) as (Hfc & Hl & Hu & Hp).
  destruct (conf c Hc) as (Hcased & Htitle & Hlower).
  destruct (conf (f c) Hfc) as (Hcased' & Htitle' & Hlower').
  rewrite Hcased, Hcased', Hp, Htitle, Htitle', Hlower, Hlower', Hl, Hu.
  f_equal. apply IH, Hall.
Qed.

(** X13.  On ASCII names the title case does not depend on the case of
    the letters of the input: a name, the name in lower case and the name
    in upper case get the same normalized name. *)
Theorem title_ignores_case (s : pystr) :
  ascii_conformant rt ->
  Forall (fun c => (c < 128)%N) s ->
  title (map ascii_lower s) = title s /\ title (map ascii_upper s) = title s.
Proof.
  intros conf Hs. unfold title. split; apply do_title_recased; try assumption.
  - intros c Hc. split; [apply ascii_lower_bound, Hc|].
    split; [apply ascii_lower_idem|].
    split; [apply ascii_upper_lower | apply ascii_letter_lower].
  - intros c Hc. split; [apply ascii_upper_bound, Hc|].
    split; [apply ascii_lower_upper|].
    split; [apply ascii_upper_idem | apply ascii_letter_upper].
Qed.

(** ** The tuple of a record does not depend on the order of its fields *)

Lemma strict_sorted_perm_eq (t u : list item) :
  StronglySorted (fun a b : item => str_ltb (fst a) (fst b) = true) t ->
  StronglySorted (fun a b : item => str_ltb (fst a) (fst b) = true) u ->
  Permutation t u -> t = u.
Proof.
  revert u. induction t as [|x t IH]; intros u Ht Hu Hp.
  - apply Permutation_nil in Hp. congruence.
  - destruct u as [|y u].
    + symmetry in Hp. apply Permutation_nil in Hp. discriminate.
    + apply StronglySorted_inv in Ht as [Ht Hx].
      apply StronglySorted_inv in Hu as [Hu Hy].
      rewrite Forall_forall in Hx, Hy.
      assert (x = y) as ->.
      { assert (x ∈ y :: u) as Hxu by (rewrite <- Hp; left).
        assert (y ∈ x :: t) as Hyt by (rewrite Hp; left).
        apply elem_of_cons in Hxu as [E|Hxu]; [exact E|].
        apply elem_of_cons in Hyt as [E|Hyt]; [congruence|].
        apply Hy in Hxu. apply Hx in Hyt.
        pose proof (str_ltb_trans _ _ _ Hxu Hyt) as Habs.
        rewrite str_ltb_irrefl in Habs. discriminate. }
      f_equal. apply IH; [exact Ht | exact Hu |].
      eapply Permutation_cons_inv, Hp.
Qed.

(** X14.  Two dicts with the same items, inserted in whatever order, have
    the same tuple: [sorted] gives the items of a dict in one order that
    depends on the items only. *)
Theorem sorted_canonical (d1 d2 : dict) :
  NoDup (map fst d1) -> Permutation d1 d2 -> sorted d1 = sorted d2.
Proof.
  intros Hnd Hp. apply strict_sorted_perm_eq.
  - apply sorted_strict, Hnd.
  - apply sorted_strict. rewrite <- Hp. exact Hnd.
  - rewrite !sorted_perm. exact Hp.
Qed.

(** ** An age with a fraction *)

(** X15.  [int] drops the fraction of a finite float, so a record whose
    age is a finite float passes the age test exactly when the float is
    18 or more: 17.9 counts as 17.  An infinite age has no integer, [int]
    raises OverflowError for it, and ValueError for an age that is a
    NaN. *)
Theorem float_age_threshold :
  (forall q : Q,
     exists n, py_int (VFloat q) = Ok n /\ ((18 <= n)%Z <-> (18 <= q)%Q)) /\
  (forall negative, py_int (VInf negative) = Err OverflowError) /\
  (forall object, py_int (VNaN object) = Err ValueError).
Proof.
  split; [|split; reflexivity].
  intros q. exists (truncate q). split; [reflexivity|].
  unfold truncate, Qle. destruct q as [a b]. simpl.
  pose proof (Z.quot_rem' a (Z.pos b)) as Hqr.
  assert (0 < Z.pos b)%Z as Hb by lia.
  destruct (Z.le_gt_cases 0 a) as [Ha|Ha].
  - pose proof (Z.rem_bound_pos a (Z.pos b) Ha Hb) as Hr.
    split; intros H; nia.
  - assert (a <= 0)%Z as Ha' by lia.
    pose proof (Z.rem_bound_pos_neg a (Z.pos b) Hb Ha') as Hr.
    split; intros H; nia.
Qed.

End CleanerBehaviour.

(* ===================================================================== *)
(** * The further properties on the samples *)
(* ===================================================================== *)

Section MoreSamples.
Import Cohort Cleaner.

Ltac computed := apply (bool_decide_unpack _); vm_compute; exact I.

(** The record of age 18 is returned; in the store it has its name in
    title case and an integer age of 18 or more. *)
Lemma returned_records_clean_witness :
  exists d' s n,
    fst (@clean_patient_data sample [0; 1; 2]%nat ages_heap) !! 0%nat = Some d' /\
    dict_get (py "name") d' = Some (VStr (@title sample s)) /\
    dict_get (py "age") d' = Some (VInt n) /\ (18 <= n)%Z.
Proof.
  apply (@returned_records_clean sample [0; 1; 2]%nat ages_heap
           (fst (@clean_patient_data sample [0; 1; 2]%nat ages_heap))
           [0%nat] 0%nat).
  - vm_compute. reflexivity.
  - computed.
Defined.

(** The diagnosis of the record of age 17 is what it was. *)
Lemma other_fields_preserved_witness :
  exists d',
    fst (@clean_patient_data sample [0; 1; 2]%nat ages_heap) !! 1%nat = Some d' /\
    dict_get (py "diagnosis") d'
    = dict_get (py "diagnosis") (patient "bob ray" (VInt 17) "male" "flu").
Proof.
  apply (@other_fields_preserved sample [0; 1; 2]%nat ages_heap
           (fst (@clean_patient_data sample [0; 1; 2]%nat ages_heap))
           [0%nat] 1%nat).
  - vm_compute. reflexivity.
  - reflexivity.
  - computed.
  - computed.
Defined.

(** The two records returned for [john_heap] differ: in the diagnosis. *)
Lemma returned_records_differ_witness :
  0%nat <> 2%nat /\
  ~ same_fields (patient "John Smith" (VInt 32) "male" "flu")
                (patient "John Smith" (VInt 32) "male" "cold").
Proof.
  split; [discriminate|].
  apply (@returned_records_differ sample [0; 1; 2]%nat john_heap
           (fst (@clean_patient_data sample [0; 1; 2]%nat john_heap))
           [0; 2]%nat 0%nat 2%nat).
  - vm_compute. reflexivity.
  - computed.
  - intros l d Hl Hd.
    repeat (apply elem_of_cons in Hl as [->|Hl]); [| | |inversion Hl];
      injection Hd as <-; computed.
  - computed.
  - computed.
  - discriminate.
  - reflexivity.
  - reflexivity.
Defined.

(** The record without an age gets the age 0, as its last field, and is
    not returned. *)
Lemma missing_age_is_zero_witness :
  (2%nat ∉ [0%nat]) /\
  exists d',
    fst (@clean_patient_data sample [0; 1; 2]%nat ages_heap) !! 2%nat = Some d' /\
    dict_get (py "age") d' = Some (VInt 0) /\
    (NoDup [0; 1; 2]%nat ->
     map fst d' = map fst [(py "name", VStr (py "cy"))] ++ [py "age"]).
Proof.
  apply (@missing_age_is_zero sample [0; 1; 2]%nat ages_heap
           (fst (@clean_patient_data sample [0; 1; 2]%nat ages_heap))
           [0%nat] 2%nat).
  - vm_compute. reflexivity.
  - computed.
  - reflexivity.
  - reflexivity.
Defined.

(** The second record of [nameless_heap] has no name: the run ends with a
    KeyError, the first record cleaned and the others as they were. *)
Lemma name_missing_or_not_a_string_witness :
  @clean_patient_data sample [0; 1; 2]%nat nameless_heap
  = (fst (@clean_patient_data sample [0%nat] nameless_heap),
     Err (KeyError (py "name"))).
Proof.
  apply (@name_missing_or_not_a_string sample [0%nat] [2%nat] 1%nat
           nameless_heap
           (fst (@clean_patient_data sample [0%nat] nameless_heap))
           [0%nat] [(py "age", VInt 30)]).
  - vm_compute. reflexivity.
  - reflexivity.
  - reflexivity.
Defined.

(** The second record of [bad_age_heap] has the age abc: the run ends
    with a ValueError, and the record keeps its new name. *)
Lemma age_not_coercible_witness :
  @clean_patient_data sample [0; 1]%nat bad_age_heap
  = (<[1%nat := dict_set (py "name") (VStr (@title sample (py "cy dee")))
                  (patient "cy dee" (VStr (py "abc")) "male" "flu")]>
       (fst (@clean_patient_data sample [0%nat] bad_age_heap)),
     Err ValueError).
Proof.
  apply (@age_not_coercible sample [0%nat] [] 1%nat bad_age_heap
           (fst (@clean_patient_data sample [0%nat] bad_age_heap))
           [0%nat]).
  - vm_compute. reflexivity.
  - reflexivity.
  - reflexivity.
  - vm_compute. reflexivity.
Defined.

(** The record of [tagged_heap] is of age and has a list under tags. *)
Lemma unhashable_field_witness :
  @clean_patient_data sample [0%nat] tagged_heap
  = (<[0%nat := dict_set (py "age") (VInt 40)
                  (dict_set (py "name") (VStr (@title sample (py "ann lee")))
                     (patient "ann lee" (VInt 40) "female" "flu"
                        ++ [(py "tags", VList [])]))]> tagged_heap,
     Err TypeError).
Proof.
  apply (@unhashable_field sample [] [] 0%nat tagged_heap tagged_heap []
           _ (py "ann lee") 40%Z (py "tags") (VList [])).
  - reflexivity.
  - reflexivity.
  - reflexivity.
  - reflexivity.
  - lia.
  - computed.
  - computed.
  - reflexivity.
  - reflexivity.
Defined.

Lemma title_ignores_case_witness :
  @title sample (map ascii_lower (py "John SMITH")) = @title sample (py "John SMITH") /\
  @title sample (map ascii_upper (py "John SMITH")) = @title sample (py "John SMITH").
Proof.
  apply (@title_ignores_case sample (py "John SMITH")).
  - intros c Hc. simpl.
    assert ((c =? 304)%N = false) as E by (apply N.eqb_neq; lia).
    rewrite E, orb_false_r. auto.
  - vm_compute. repeat constructor.
Defined.

(** A record and the record with its fields in the reverse order. *)
Lemma sorted_canonical_witness :
  sorted (patient "ann lee" (VInt 40) "female" "flu")
  = sorted (rev (patient "ann lee" (VInt 40) "female" "flu")).
Proof.
  apply sorted_canonical.
  - computed.
  - apply Permutation_rev.
Defined.

End MoreSamples.

(* ===================================================================== *)
(** * Properties of the report of the cohort aggregator *)
(* ===================================================================== *)

Section CohortReport.
Import Cohort.
Context {engine : Engine}.
Local Open Scope Q_scope.

Lemma patient_count_sum (rs : list Row) :
  sum_list (map patient_count (cohort_query rs))
  = length (List.filter in_closed_10_60 rs).
Proof.
  unfold cohort_query. rewrite sum_patient_count, group_by_size.
  unfold with_bmi_range.
  rewrite length_map, select_columns_id, filter_bmi_closed. reflexivity.
Qed.

Lemma main_ok (disk : gmap string file) (df : DataFrame) :
  disk !! "patients_large.csv" = Some (CsvFile df) ->
  has_column "BMI" df = true ->
  has_column "Glucose" df = true ->
  has_column "Age" df = true ->
  numeric BMI df = true ->
  numeric Glucose df = true ->
  numeric Age df = true ->
  main disk
  = (delete parquet_file disk,
     [Summary; Table (cohort_query (rows df));
      TotalPatients (length (List.filter in_closed_10_60 (rows df)));
      DetailedResults]
       ++ fst (print_rows (sort_by_label (cohort_query (rows df))))
       ++ match snd (print_rows (sort_by_label (cohort_query (rows df)))) with
          | Some f => [AnalysisError f]
          | None => []
          end).
Proof.
  intros Hf Hb Hg Ha Nb Ng Na. unfold main.
  rewrite (analyze_success _ _ df _ Hf (collect_ok df Hb Hg Ha Nb Ng Na)).
  rewrite patient_count_sum.
  destruct (print_rows (sort_by_label (cohort_query (rows df))))
    as [lines failed].
  reflexivity.
Qed.

(** X16.  On a file that parses and has the three columns, each of a
    numeric type, the report starts with the summary heading, the table
    of the result, the total and the heading of the details; the total it
    prints is the number of input rows with BMI in [10, 60], and the
    Parquet file is gone from the disk. *)
Theorem main_reports_total (disk : gmap string file) (df : DataFrame) :
  disk !! "patients_large.csv" = Some (CsvFile df) ->
  has_column "BMI" df = true ->
  has_column "Glucose" df = true ->
  has_column "Age" df = true ->
  numeric BMI df = true ->
  numeric Glucose df = true ->
  numeric Age df = true ->
  exists lines,
    main disk
    = (delete parquet_file disk,
       Summary :: Table (cohort_query (rows df))
         :: TotalPatients (length (List.filter in_closed_10_60 (rows df)))
         :: DetailedResults :: lines).
Proof.
  intros Hf Hb Hg Ha Nb Ng Na. eexists.
  rewrite (main_ok disk df Hf Hb Hg Ha Nb Ng Na). reflexivity.
Qed.

(** X17.  With nothing at the path patients_large.csv the report is the
    not-found message and the hint, and the disk is as before. *)
Theorem main_file_missing (disk : gmap string file) :
  disk !! "patients_large.csv" = None ->
  main disk
  = (disk, [NotFound (FileNotFoundError "patients_large.csv"); PleaseEnsure]).
Proof.
  intros Hf. unfold main, analyze_patient_cohorts, exists_path.
  rewrite bool_decide_eq_false_2; [reflexivity|].
  rewrite Hf. intros [x [=]].
Qed.

(** X18.  When the query fails on a file that parses, the report is the
    single line of the general handler, the exception goes no further,
    and the Parquet file is left on the disk. *)
Theorem main_swallows_failure (disk : gmap string file) (df : DataFrame)
    (e : error) :
  disk !! "patients_large.csv" = Some (CsvFile df) ->
  collect df = Err e ->
  main disk
  = (<[parquet_file := ParquetFile df]> disk, [AnalysisError (Raised e)]).
Proof.
  intros Hf Hc. unfold main. rewrite (analyze_failure _ _ df e Hf Hc).
  pose proof (collect_failure df e Hc) as Hin.
  destruct e as [path| | |name]; try reflexivity.
  destruct (plan_failures_found df _ path Hin eq_refl).
Qed.

(** ** The order of the details *)

Lemma insert_by_label_perm (g : Aggregate) (l : list Aggregate) :
  Permutation (insert_by_label g l) (g :: l).
Proof.
  induction l as [|g' l IH]; simpl; [reflexivity|].
  destruct (String.ltb (bmi_range g') (bmi_range g)); [|reflexivity].
  rewrite IH. apply perm_swap.
Qed.

Lemma sort_by_label_perm (l : list Aggregate) :
  Permutation (sort_by_label l) l.
Proof.
  induction l as [|g l IH]; simpl; [reflexivity|].
  rewrite insert_by_label_perm, IH. reflexivity.
Qed.

Lemma ltb_false_leb (a b : string) :
  String.ltb b a = false -> String.leb a b = true.
Proof.
  unfold String.ltb, String.leb. rewrite (String.compare_antisym a b).
  destruct (String.compare b a); simpl; congruence.
Qed.

Lemma ltb_true_leb (a b : string) :
  String.ltb a b = true -> String.leb a b = true.
Proof.
  unfold String.ltb, String.leb. destruct (String.compare a b); congruence.
Qed.

Lemma insert_by_label_sorted (g : Aggregate) (l : list Aggregate) :
  Sorted (fun a b => String.leb (bmi_range a) (bmi_range b) = true) l ->
  Sorted (fun a b => String.leb (bmi_range a) (bmi_range b) = true)
    (insert_by_label g l).
Proof.
  induction l as [|g' l IH]; simpl; intros Hs.
  - apply Sorted_cons; [apply Sorted_nil | apply HdRel_nil].
  - apply Sorted_inv in Hs as [Hs Hhd].
    destruct (String.ltb (bmi_range g') (bmi_range g)) eqn:E.
    + apply Sorted_cons; [apply IH, Hs|].
      destruct l as [|g'' l]; simpl.
      * apply HdRel_cons, ltb_true_leb, E.
      * destruct (String.ltb (bmi_range g'') (bmi_range g)).
        -- apply HdRel_cons. apply HdRel_inv in Hhd. exact Hhd.
        -- apply HdRel_cons, ltb_true_leb, E.
    + apply Sorted_cons; [apply Sorted_cons; assumption|].
      apply HdRel_cons, ltb_false_leb, E.
Qed.

Lemma sort_by_label_sorted (l : list Aggregate) :
  Sorted (fun a b => String.leb (bmi_range a) (bmi_range b) = true)
    (sort_by_label l).
Proof.
  induction l as [|g l IH]; simpl; [apply Sorted_nil|].
  apply insert_by_label_sorted, IH.
Qed.

Lemma Sorted_labels (l : list Aggregate) :
  Sorted (fun a b => String.leb (bmi_range a) (bmi_range b) = true) l ->
  Sorted (fun a b => String.leb a b = true) (map bmi_range l).
Proof.
  induction 1 as [|g l Hs IH Hhd]; simpl; [apply Sorted_nil|].
  apply Sorted_cons; [exact IH|].
  destruct Hhd; simpl; [apply HdRel_nil | apply HdRel_cons; assumption].
Qed.

(** The loop prints the label of every row it reaches, and it reaches
    every row when no average is null. *)
Lemma print_rows_complete (rows : list Aggregate) :
  (forall g, g ∈ rows -> avg_glucose g <> None /\ avg_age g <> None) ->
  snd (print_rows rows) = None /\
  labels_printed (fst (print_rows rows)) = map bmi_range rows.
Proof.
  induction rows as [|g rows IH]; intros H; [split; reflexivity|].
  destruct (H g) as [Hg Ha]; [left|].
  destruct IH as [IH1 IH2]; [intros g' Hg'; apply H; right; exact Hg'|].
  simpl. destruct (avg_glucose g) as [x|]; [|congruence].
  destruct (avg_age g) as [y|]; [|congruence].
  destruct (print_rows rows) as [lines failed]. simpl in *.
  split; [exact IH1|]. unfold labels_printed in *. simpl. f_equal. exact IH2.
Qed.

Lemma print_rows_stops (rows : list Aggregate) (g : Aggregate) :
  g ∈ rows -> avg_glucose g = None \/ avg_age g = None ->
  snd (print_rows rows) = Some FormatTypeError.
Proof.
  induction rows as [|g' rows IH]; intros Hin Hnull; [inversion Hin|].
  simpl. destruct (avg_glucose g') as [x|] eqn:Ex; [|reflexivity].
  destruct (avg_age g') as [y|] eqn:Ey; [|reflexivity].
  apply elem_of_cons in Hin as [->|Hin].
  - destruct Hnull; congruence.
  - specialize (IH Hin Hnull). destruct (print_rows rows) as [lines failed].
    exact IH.
Qed.

Lemma mean_some (s : list cell) :
  s <> [] -> (forall c, c ∈ s -> c <> None) -> mean s <> None.
Proof.
  intros Hne Hall. unfold mean, non_null.
  destruct s as [|c s]; [congruence|].
  destruct c as [x|]; [|exfalso; apply (Hall None); [left | reflexivity]].
  simpl. discriminate.
Qed.

Lemma group_of_result (rs : list Row) (g : Aggregate) :
  g ∈ cohort_query rs ->
  members (bmi_range g) rs <> [] /\
  avg_glucose g = mean (map Glucose (members (bmi_range g) rs)) /\
  avg_age g = mean (map Age (members (bmi_range g) rs)).
Proof.
  unfold cohort_query. intros H.
  apply list_elem_of_fmap in H as ([k ms] & -> & Hin).
  destruct (groups_of_group_by
              (with_bmi_range (select_columns (filter_bmi rs))))
    as (_ & _ & Hgrp).
  destruct (Hgrp k ms Hin) as [Hms Hne]. rewrite rows_with_labelled in Hms.
  simpl. rewrite <- Hms. auto.
Qed.

Lemma members_elem (k : string) (rs : list Row) (r : Row) :
  r ∈ members k rs ->
  r ∈ rs /\ in_closed_10_60 r = true /\ bmi_range_of (BMI r) = k.
Proof.
  unfold members. intros H.
  apply list_elem_of_In, filter_In in H as [Hin Hr].
  apply andb_true_iff in Hr as [Hr Hk]. apply String.eqb_eq in Hk.
  split; [apply list_elem_of_In, Hin | auto].
Qed.

(** X19.  On a file that parses and has the three columns, each of a
    numeric type: when every input row with BMI in [10, 60] has a Glucose
    and an Age value, the report runs to its end, and its BMI Range lines
    carry the labels of the result, each once, in ascending order of the
    labels as strings. *)
Theorem report_in_label_order (disk : gmap string file) (df : DataFrame) :
  disk !! "patients_large.csv" = Some (CsvFile df) ->
  has_column "BMI" df = true ->
  has_column "Glucose" df = true ->
  has_column "Age" df = true ->
  numeric BMI df = true ->
  numeric Glucose df = true ->
  numeric Age df = true ->
  (forall r, r ∈ rows df -> in_closed_10_60 r = true ->
     Glucose r <> None /\ Age r <> None) ->
  (forall f, AnalysisError f ∉ snd (main disk)) /\
  Permutation (labels_printed (snd (main disk)))
    (map bmi_range (cohort_query (rows df))) /\
  NoDup (labels_printed (snd (main disk))) /\
  Sorted (fun a b => String.leb a b = true) (labels_printed (snd (main disk))).
Proof.
  intros Hf Hb Hg Ha Nb Ng Na Hfull.
  rewrite (main_ok disk df Hf Hb Hg Ha Nb Ng Na). simpl snd.
  destruct (print_rows_complete (sort_by_label (cohort_query (rows df))))
    as [Hnone Hlabels].
  { intros g Hin. rewrite sort_by_label_perm in Hin.
    destruct (group_of_result _ _ Hin) as (Hne & -> & ->).
    split; (apply mean_some;
      [ destruct (members (bmi_range g) (rows df)); [congruence | discriminate]
      | intros c Hc; apply list_elem_of_fmap in Hc as (r & -> & Hr);
        apply members_elem in Hr as (Hr & Hin' & _);
        apply (Hfull r Hr Hin') ]). }
  rewrite Hnone, app_nil_r.
  match goal with
  | |- context [labels_printed ?l] =>
      assert (labels_printed l
              = map bmi_range (sort_by_label (cohort_query (rows df)))) as E
        by (rewrite <- Hlabels; reflexivity)
  end.
  split; [|rewrite E; split; [|split]].
  - intros f Hin.
    repeat (apply elem_of_cons in Hin as [Hin|Hin]; [discriminate|]).
    assert (forall rs0, snd (print_rows rs0) = None ->
              AnalysisError f ∉ fst (print_rows rs0)) as Hno.
    { intros rs0. induction rs0 as [|g rs0 IH]; simpl;
        [intros _ H; inversion H|].
      destruct (avg_glucose g); [|discriminate].
      destruct (avg_age g); [|discriminate].
      destruct (print_rows rs0) as [lines failed]. simpl in *.
      intros Hn Hin'.
      repeat (apply elem_of_cons in Hin' as [Hin'|Hin']; [discriminate|]).
      exact (IH Hn Hin'). }
    exact (Hno _ Hnone Hin).
  - apply Permutation_map, sort_by_label_perm.
  - rewrite (Permutation_map bmi_range (sort_by_label_perm _)).
    apply one_row_labels_NoDup.
  - apply Sorted_labels, sort_by_label_sorted.
Qed.

(** X20.  On a file that parses and has the three columns, each of a
    numeric type (so each of them holds a number in some row): when all
    the rows of some label have no Glucose value, or all have no Age
    value, the average of that label is null and the report stops in the
    details: its last line is the line of the general handler for the
    TypeError of the format. *)
Theorem null_average_stops_report (disk : gmap string file) (df : DataFrame)
    (k : string) :
  disk !! "patients_large.csv" = Some (CsvFile df) ->
  has_column "BMI" df = true ->
  has_column "Glucose" df = true ->
  has_column "Age" df = true ->
  numeric BMI df = true ->
  numeric Glucose df = true ->
  numeric Age df = true ->
  members k (rows df) <> [] ->
  values Glucose (members k (rows df)) = [] \/
  values Age (members k (rows df)) = [] ->
  exists lines,
    snd (main disk) = lines ++ [AnalysisError FormatTypeError].
Proof.
  intros Hf Hb Hg Ha Nb Ng Na Hne Hnull.
  rewrite (main_ok disk df Hf Hb Hg Ha Nb Ng Na). simpl snd.
  assert (exists g, g ∈ cohort_query (rows df) /\
                    (avg_glucose g = None \/ avg_age g = None)) as (g & Hin & Hg').
  { destruct (groups_of_group_by
                (with_bmi_range (select_columns (filter_bmi (rows df)))))
      as (_ & Hcov & Hgrp).
    destruct (members k (rows df)) as [|r ms] eqn:Em; [congruence|].
    assert (r ∈ members k (rows df)) as Hr by (rewrite Em; left).
    apply members_elem in Hr.
    assert (k ∈ map fst (group_by
              (with_bmi_range (select_columns (filter_bmi (rows df))))))
      as Hk by (apply (Hcov (r, k)), labelled_elem, Hr).
    apply list_elem_of_fmap in Hk as ([k' ms'] & -> & Hin).
    exists (agg (k', ms')). split.
    - unfold cohort_query. apply list_elem_of_fmap. eauto.
    - destruct (Hgrp _ _ Hin) as [Hms _]. rewrite rows_with_labelled in Hms.
      simpl in *. rewrite Hms, Em. unfold values, mean in *.
      destruct Hnull as [-> | ->]; auto. }
  rewrite (print_rows_stops _ g); [| rewrite sort_by_label_perm; exact Hin | exact Hg'].
  eexists (_ :: _ :: _ :: _ :: _). reflexivity.
Qed.

End CohortReport.

(* ===================================================================== *)
(** * Properties of the script of the record cleaner *)
(* ===================================================================== *)

Section ScriptFacts.
Import Cleaner.
Context {rt : Interpreter}.

(** ** Loading *)

Lemma fold_dict_set_NoDup (members : list (pystr * value)) (d : dict) :
  NoDup (map fst d) ->
  NoDup (map fst (fold_left (fun d kv => dict_set (fst kv) (snd kv) d)
                    members d)).
Proof.
  revert d. induction members as [|[k v] members IH]; intros d Hd; simpl;
    [exact Hd|].
  apply IH, dict_set_NoDup, Hd.
Qed.

Lemma to_dict_NoDup (members : list (pystr * value)) :
  NoDup (map fst (to_dict members)).
Proof. apply fold_dict_set_NoDup, NoDup_nil_2. Qed.

Lemma allocate_objects (vs : list value) (h h' : heap) (es : list element) :
  allocate vs h = (h', es) ->
  exists news,
    h' = h ++ news /\
    objects es = seq (length h) (length news) /\
    Forall (fun d : dict => NoDup (map fst d)) news /\
    length es = length vs.
Proof.
  revert h h' es. induction vs as [|v vs IH]; intros h h' es H.
  - injection H as <- <-. exists []. rewrite app_nil_r. repeat split. constructor.
  - assert ((exists m, v = VDict m) \/
            (forall h0, allocate (v :: vs) h0
                        = let (h1, es1) := allocate vs h0 in (h1, Atom v :: es1)))
      as [[m ->]|Hatom].
    { destruct v; try (right; reflexivity). left. eauto. }
    + simpl in H.
      destruct (allocate vs (h ++ [to_dict m])) as [h1 es1] eqn:E.
      injection H as <- <-.
      destruct (IH _ _ _ E) as (news & -> & Hobj & Hwf & Hlen).
      exists (to_dict m :: news). rewrite <- app_assoc. split; [reflexivity|].
      split; [|split].
      * change (objects (Obj (length h) :: es1))
          with (length h :: objects es1).
        rewrite Hobj, length_app. simpl.
        replace (length h + 1)%nat with (S (length h)) by lia. reflexivity.
      * constructor; [apply to_dict_NoDup | exact Hwf].
      * simpl. f_equal. exact Hlen.
    + rewrite Hatom in H.
      destruct (allocate vs h) as [h1 es1] eqn:E. injection H as <- <-.
      destruct (IH _ _ _ E) as (news & -> & Hobj & Hwf & Hlen).
      exists news. split; [reflexivity|]. split; [exact Hobj|].
      split; [exact Hwf|]. simpl. f_equal. exact Hlen.
Qed.

Lemma leading_objects_sublist (es : list element) :
  leading_objects es `sublist_of` objects es.
Proof.
  induction es as [|[r|v] es IH]; simpl.
  - apply sublist_nil.
  - apply sublist_skip, IH.
  - apply sublist_nil_l.
Qed.

(** The objects the loop will clean are new, distinct, and have distinct
    keys. *)
Lemma leading_objects_fresh (vs : list value) (h h' : heap)
    (es : list element) :
  allocate vs h = (h', es) ->
  NoDup (leading_objects es) /\
  (forall l, l ∈ leading_objects es ->
     (length h <= l)%nat /\
     exists d, h' !! l = Some d /\ NoDup (map fst d)) /\
  (forall l, (l < length h)%nat -> h' !! l = h !! l).
Proof.
  intros H. destruct (allocate_objects _ _ _ _ H) as (news & -> & Hobj & Hwf & _).
  pose proof (leading_objects_sublist es) as Hsub. rewrite Hobj in Hsub.
  split; [|split].
  - eapply sublist_NoDup; [apply NoDup_seq | exact Hsub].
  - intros l Hl. apply (elem_of_sublist _ _ _ Hl) in Hsub.
    apply elem_of_seq in Hsub as [Hlo Hhi]. split; [exact Hlo|].
    destruct (lookup_lt_is_Some_2 news (l - length h)) as [d Hd]; [lia|].
    exists d. split.
    + etrans; [apply lookup_app_r; exact Hlo | exact Hd].
    + rewrite Forall_forall in Hwf. apply Hwf.
      eapply list_elem_of_lookup_2, Hd.
  - intros l Hl. apply lookup_app_l. exact Hl.
Qed.

(** X21.  Loading an array creates one new object in the store for each
    object of the array, after the objects that were there, which stay as
    they are; the new objects are distinct, each of them has distinct
    keys, and nothing is printed. *)
Theorem load_creates_objects (filepath : string)
    (disk : gmap string json_file) (h h' : heap) (printed : list script_line)
    (es : list element) :
  load_patient_data filepath disk h = (h', printed, Ok (LList es)) ->
  printed = [] /\
  exists news,
    h' = h ++ news /\
    objects es = seq (length h) (length news) /\
    NoDup (objects es) /\
    Forall (fun d : dict => NoDup (map fst d)) news.
Proof.
  unfold load_patient_data. destruct (disk !! filepath) as [[v|]|];
    try discriminate.
  destruct v; try discriminate.
  destruct (allocate elements h) as [h1 es1] eqn:E. intros [= <- <- <-].
  split; [reflexivity|].
  destruct (allocate_objects _ _ _ _ E) as (news & -> & Hobj & Hwf & _).
  exists news. split; [reflexivity|]. split; [exact Hobj|].
  split; [rewrite Hobj; apply NoDup_seq | exact Hwf].
Qed.

(** ** The outcomes of [main] *)

(** X22.  Only the missing source is handled: with nothing at the path
    the script prints that the file was not found and exits with status
    1; with text that is no JSON the decoding error leaves [main] and
    nothing is printed.  The store is untouched in both cases. *)
Theorem main_without_source (data_path : string)
    (disk : gmap string json_file) (h : heap) :
  (disk !! data_path = None ->
     main data_path disk h
     = (h, [Msg "File not found!"], Err (SystemExit 1))) /\
  (disk !! data_path = Some NotJson ->
     main data_path disk h = (h, [], Err JSONDecodeError)).
Proof.
  unfold main, load_patient_data. split; intros ->; reflexivity.
Qed.

(** X23.  When the document is empty or otherwise false (an empty array,
    object or string, null, false or zero), the script prints that no
    data was loaded and returns the empty list, without cleaning. *)
Theorem main_no_data (data_path : string) (disk : gmap string json_file)
    (h : heap) (v : value) :
  disk !! data_path = Some (JsonText v) ->
  falsy v = true ->
  main data_path disk h = (h, [Msg "No patient data loaded."], Ok []).
Proof.
  intros Hf Hv. unfold main, load_patient_data. rewrite Hf.
  destruct v as [|b|z|q|neg|o|s|l|f]; simpl in Hv |- *;
    try discriminate; try reflexivity; try (rewrite Hv; reflexivity).
  destruct l; [reflexivity | discriminate].
Qed.

(** ** Runs of [main] that reach the cleaning *)

Lemma for_each_kept_fields (ps : list ref) (seen' : list (list item))
    (out : list ref) (h h' : heap) (l : ref) :
  for_each ps ([], []) h = (h', Ok (seen', out)) ->
  l ∈ out ->
  exists d' s n, h' !! l = Some d' /\
    dict_get (py "name") d' = Some (VStr (title s)) /\
    dict_get (py "age") d' = Some (VInt n) /\ (18 <= n)%Z.
Proof.
  intros H Hl.
  destruct (for_each_kept_adult _ _ _ _ _ _ _ l H Hl)
    as [Hnil|(Hin & d0 & n0 & Hd0 & Hn0 & Hge)]; [inversion Hnil|].
  destruct (for_each_cleaned _ _ _ _ _ _ _ l H (or_introl Hin))
    as (d' & s & n & Hd' & Hs & Ha).
  destruct (for_each_age _ _ _ _ _ _ _ l d0 H Hd0) as (d'' & Hd'' & Hage & _).
  rewrite Hd' in Hd''. injection Hd'' as <-.
  exists d', s, n. split; [exact Hd'|]. split; [exact Hs|]. split; [exact Ha|].
  specialize (Hage Hin). unfold coerced_age in Hage at 1.
  rewrite Ha in Hage. simpl in Hage. congruence.
Qed.

(** The print loop that ends without an exception has printed the three
    fields of every record, in order. *)
Lemma print_patients_lines (cleaned : list ref) (h : heap)
    (lines : list script_line) :
  print_patients cleaned h = (lines, None) ->
  Forall2 (fun l line => exists d name age diagnosis,
             h !! l = Some d /\
             dict_get (py "name") d = Some name /\
             dict_get (py "age") d = Some age /\
             dict_get (py "diagnosis") d = Some diagnosis /\
             line = PatientLine name age diagnosis) cleaned lines.
Proof.
  revert lines. induction cleaned as [|p rest IH]; intros lines H.
  - injection H as <-. constructor.
  - simpl in H. destruct (h !! p) as [d|] eqn:Hd; [|discriminate].
    destruct (dict_get (py "name") d) as [name|] eqn:Hn; [|discriminate].
    destruct (dict_get (py "age") d) as [age|] eqn:Ha; [|discriminate].
    destruct (dict_get (py "diagnosis") d) as [diagnosis|] eqn:Hg;
      [|discriminate].
    destruct (print_patients rest h) as [lines' failed] eqn:E.
    injection H as <- ->. constructor; [|apply IH; reflexivity].
    exists d, name, age, diagnosis. auto.
Qed.


(** What was loaded when the cleaning is called and returns. *)
Lemma call_clean_ok (patients : loaded) (h1 h2 : heap) (out : list ref) :
  not_loaded patients = false ->
  call_clean patients h1 = (h2, Ok out) ->
  exists es, patients = LList es /\
    clean_patient_data (leading_objects es) h1 = (h2, Ok out).
Proof.
  intros Hnl H. destruct patients as [es|v].
  - exists es. split; [reflexivity|]. unfold call_clean, bind in H.
    destruct (clean_patient_data (leading_objects es) h1) as [h3 [cleaned|e]];
      [|discriminate].
    destruct (length (leading_objects es) =? length es)%nat;
      [|discriminate].
    exact H.
  - destruct v as [|b|z|q|neg|o|s|l|f]; try discriminate;
      [destruct s | destruct f]; discriminate.
Qed.

Lemma Forall2_elem {A B} (P Q : A -> B -> Prop) (xs : list A) (ys : list B) :
  Forall2 P xs ys ->
  (forall x y, x ∈ xs -> P x y -> Q x y) ->
  Forall2 Q xs ys.
Proof.
  induction 1 as [|x y xs ys Hxy Hrest IH]; intros Himp; constructor.
  - apply Himp; [left | exact Hxy].
  - apply IH. intros x' y' Hx'. apply Himp. right. exact Hx'.
Qed.

(** The three ways [main] returns. *)
Lemma main_returns (data_path : string) (disk : gmap string json_file)
    (h h' : heap) (printed : list script_line) (out : list ref) :
  main data_path disk h = (h', printed, Ok out) ->
  (h' = h /\ out = [] /\ printed = [Msg "No patient data loaded."]) \/
  exists vs h1 es,
    disk !! data_path = Some (JsonText (VList vs)) /\
    allocate vs h = (h1, es) /\
    clean_patient_data (leading_objects es) h1 = (h', Ok out) /\
    ((out = [] /\
      printed = [Msg "No patients meet the criteria after cleaning."]) \/
     (out <> [] /\
      exists lines, print_patients out h' = (lines, None) /\
        printed = Msg "Cleaned Patient Data:" :: lines)).
Proof.
  unfold main, load_patient_data. intros H.
  destruct (disk !! data_path) as [[v|]|] eqn:Hf; try discriminate.
  assert ((exists vs, v = VList vs) \/
          (forall vs, v <> VList vs)) as [[vs ->]|Hv].
  { destruct v; try (right; discriminate). left. eauto. }
  - destruct (allocate vs h) as [h1 es] eqn:Ea.
    destruct (not_loaded (LList es)) eqn:Hnl.
    + destruct es; [|discriminate]. destruct vs as [|v vs].
      * injection Ea as <-. injection H as <- <- <-. left. auto.
      * exfalso. apply allocate_objects in Ea as (_ & _ & _ & _ & Hlen).
        discriminate Hlen.
    + destruct (call_clean (LList es) h1) as [h2 [cleaned|e]] eqn:Ec;
        [|discriminate].
      destruct (call_clean_ok _ _ _ _ Hnl Ec) as (es' & [= <-] & Hclean).
      right. exists vs, h1, es. split; [reflexivity|]. split; [exact Ea|].
      destruct cleaned as [|c cleaned].
      * injection H as <- <- <-. split; [exact Hclean|]. left. auto.
      * destruct (print_patients (c :: cleaned) h2) as [lines failed] eqn:Ep.
        destruct failed as [e|]; [discriminate|].
        injection H as <- <- <-. split; [exact Hclean|]. right.
        split; [discriminate|]. exists lines. auto.
  - assert (load_patient_data data_path disk h = (h, [], Ok (LOther v))) as E.
    { unfold load_patient_data. rewrite Hf. destruct v; try reflexivity.
      destruct (Hv elements eq_refl). }
    unfold load_patient_data in E. rewrite Hf in E. rewrite E in H.
    destruct (not_loaded (LOther v)) eqn:Hnl.
    + injection H as <- <- <-. left. auto.
    + destruct (call_clean (LOther v) h) as [h2 [cleaned|e]] eqn:Ec.
      * destruct (call_clean_ok _ _ _ _ Hnl Ec) as (es' & [=] & _).
      * discriminate.
Qed.

(** X24.  When [main] returns, what it has printed follows from what it
    returns.  With an empty result it is one line, that no data was
    loaded or that no patient meets the criteria.  Otherwise it is the
    header and then one line for each returned record, in the order of
    the result, with the name in title case, the integer age, which is 18
    or more, and the diagnosis the record has in the store. *)
Theorem main_report (data_path : string) (disk : gmap string json_file)
    (h h' : heap) (printed : list script_line) (out : list ref) :
  main data_path disk h = (h', printed, Ok out) ->
  match out with
  | [] =>
      printed = [Msg "No patient data loaded."] \/
      printed = [Msg "No patients meet the criteria after cleaning."]
  | _ =>
      exists lines,
        printed = Msg "Cleaned Patient Data:" :: lines /\
        Forall2 (fun l line => exists d s n diagnosis,
                   h' !! l = Some d /\
                   dict_get (py "name") d = Some (VStr (title s)) /\
                   dict_get (py "age") d = Some (VInt n) /\ (18 <= n)%Z /\
                   dict_get (py "diagnosis") d = Some diagnosis /\
                   line = PatientLine (VStr (title s)) (VInt n) diagnosis)
          out lines
  end.
Proof.
  intros H.
  destruct (main_returns _ _ _ _ _ _ H)
    as [(_ & -> & ->)|(vs & h1 & es & _ & _ & Hclean & Hout)];
    [left; reflexivity|].
  destruct Hout as [[-> ->]|(Hne & lines & Hp & ->)]; [right; reflexivity|].
  destruct out as [|o out]; [destruct (Hne eq_refl)|].
  exists lines. split; [reflexivity|].
  apply clean_patient_data_ok in Hclean as (seen' & Hfor).
  apply print_patients_lines in Hp.
  eapply Forall2_elem; [exact Hp|].
  intros l line Hl (d & name & age & diagnosis & Hd & Hn & Ha & Hg & ->).
  destruct (for_each_kept_fields _ _ _ _ _ l Hfor Hl)
    as (d' & s & n & Hd' & Hs & Hage & Hge).
  pose proof (eq_trans (eq_sym Hd) Hd') as [= <-].
  pose proof (eq_trans (eq_sym Hn) Hs) as [= ->].
  pose proof (eq_trans (eq_sym Ha) Hage) as [= ->].
  exists d, s, n, diagnosis. auto 10.
Qed.

(** X25.  Whatever the source holds, the records [main] returns are
    objects it has created itself, each returned once, and no two of them
    have the same fields; the objects that were in the store before the
    call are as they were. *)
Theorem main_returns_distinct (data_path : string)
    (disk : gmap string json_file) (h h' : heap)
    (printed : list script_line) (out : list ref) :
  main data_path disk h = (h', printed, Ok out) ->
  NoDup out /\
  (forall l, l ∈ out -> (length h <= l)%nat) /\
  (forall l, (l < length h)%nat -> h' !! l = h !! l) /\
  (forall li lj di dj, li ∈ out -> lj ∈ out -> li <> lj ->
     h' !! li = Some di -> h' !! lj = Some dj -> ~ same_fields di dj).
Proof.
  intros H.
  destruct (main_returns _ _ _ _ _ _ H)
    as [(-> & -> & _)|(vs & h1 & es & _ & Ha & Hclean & _)].
  { split; [constructor|]. split; [intros l Hl; inversion Hl|].
    split; [reflexivity|]. intros li lj di dj Hl. inversion Hl. }
  destruct (leading_objects_fresh _ _ _ _ Ha) as (Hnd & Hnew & Hold).
  assert (forall l d, l ∈ leading_objects es -> h1 !! l = Some d ->
            NoDup (map fst d)) as Hwf.
  { intros l d Hl Hd. destruct (Hnew l Hl) as (_ & d0 & Hd0 & Hk).
    pose proof (eq_trans (eq_sym Hd) Hd0) as [= ->]. exact Hk. }
  destruct (cleaned_records _ _ _ _ Hnd Hclean) as (recs & Hfst & Hrecs & ->).
  assert (forall l, l ∈ firsts [] recs -> l ∈ leading_objects es) as Hsub.
  { intros l Hl. rewrite <- Hfst. apply (firsts_subset [] recs l Hl). }
  apply clean_patient_data_ok in Hclean as (seen' & Hfor).
  split; [|split; [|split]].
  - destruct (for_each_sublist _ _ _ _ _ _ _ Hfor) as (kept & -> & Hkept).
    eapply sublist_NoDup; [exact Hnd | exact Hkept].
  - intros l Hl. apply (Hnew l (Hsub l Hl)).
  - intros l Hl. etrans; [|apply Hold; exact Hl].
    apply (for_each_frame _ _ _ _ _ _ _ l Hfor).
    intros Hin. destruct (Hnew l Hin) as [Hge _]. lia.
  - intros li lj di dj Hi Hj Hne Hdi Hdj.
    apply (firsts_differ recs h' li lj); try assumption.
    + rewrite Hfst. exact Hnd.
    + exact (cleaned_records_keys _ h1 h' recs Hfst Hwf Hrecs).
Qed.

(** ** Runs of [main] that end in an exception *)

Lemma leading_objects_atom (es : list element) (a : value) :
  Atom a ∈ es -> (length (leading_objects es) < length es)%nat.
Proof.
  assert (forall es', (length (leading_objects es') <= length es')%nat) as Hle.
  { induction es' as [|[r|v] es' IH]; simpl; lia. }
  induction es as [|[r|v] es IH]; intros Hin.
  - inversion Hin.
  - apply elem_of_cons in Hin as [[=]|Hin]. simpl. apply IH in Hin. lia.
  - simpl. lia.
Qed.

Lemma allocate_atom (vs : list value) (h h' : heap) (es : list element)
    (v : value) :
  allocate vs h = (h', es) ->
  v ∈ vs -> (forall members, v <> VDict members) ->
  Atom v ∈ es.
Proof.
  intros H Hin Hv. revert h h' es H.
  induction vs as [|v0 vs IH]; intros h h' es H; [inversion Hin|].
  assert ((exists m, v0 = VDict m) \/
          (forall h0, allocate (v0 :: vs) h0
                      = let (h1, es1) := allocate vs h0 in (h1, Atom v0 :: es1)))
    as [[m ->]|Hatom].
  { destruct v0; try (right; reflexivity). left. eauto. }
  - simpl in H.
    destruct (allocate vs (h ++ [to_dict m])) as [h1 es1] eqn:E.
    injection H as <- <-.
    apply elem_of_cons in Hin as [->|Hin]; [destruct (Hv m eq_refl)|].
    right. apply (IH Hin _ _ _ E).
  - rewrite Hatom in H.
    destruct (allocate vs h) as [h1 es1] eqn:E. injection H as <- <-.
    apply elem_of_cons in Hin as [->|Hin]; [left|].
    right. apply (IH Hin _ _ _ E).
Qed.

(** X26.  When the array of the source has an element that is no object,
    [main] ends in an exception, whatever else the array holds, and has
    printed nothing. *)
Theorem main_non_object_element (data_path : string)
    (disk : gmap string json_file) (h : heap) (vs : list value) (v : value) :
  disk !! data_path = Some (JsonText (VList vs)) ->
  v ∈ vs -> (forall members, v <> VDict members) ->
  exists h' e, main data_path disk h = (h', [], Err (Exn e)).
Proof.
  intros Hf Hin Hv. unfold main, load_patient_data. rewrite Hf.
  destruct (allocate vs h) as [h1 es] eqn:Ea.
  pose proof (allocate_atom _ _ _ _ _ Ea Hin Hv) as Hatom.
  pose proof (leading_objects_atom _ _ Hatom) as Hlt.
  assert (not_loaded (LList es) = false) as ->.
  { destruct es; [inversion Hatom | reflexivity]. }
  unfold call_clean, bind.
  destruct (clean_patient_data (leading_objects es) h1) as [h2 [cleaned|e]].
  - assert ((length (leading_objects es) =? length es)%nat = false) as ->
      by (apply Nat.eqb_neq; lia).
    exists h2, TypeError. reflexivity.
  - exists h2, e. reflexivity.
Qed.


End ScriptFacts.

(* ===================================================================== *)
(** * The reports and the script on the samples *)
(* ===================================================================== *)

Section ReportSamples.
Import Cohort.

(** The call on [good_disk], with the sample engine. *)
Lemma analyze_returns_witness :
  @analyze_patient_cohorts sample_engine "patients_large.csv" good_disk
  = (delete parquet_file good_disk,
     Ok (@cohort_query sample_engine three_rows)).
Proof.
  apply (@analyze_returns sample_engine "patients_large.csv" good_disk
           good_frame); reflexivity.
Defined.

(** The input file is as it was after the call that fails. *)
Lemma other_paths_untouched_witness :
  fst (@analyze_patient_cohorts sample_engine "patients_large.csv"
         no_bmi_disk) !! "patients_large.csv"
  = no_bmi_disk !! "patients_large.csv".
Proof.
  apply (@other_paths_untouched sample_engine "patients_large.csv"
           no_bmi_disk "patients_large.csv").
  discriminate.
Defined.

(** The call on the file whose Glucose column is empty. *)
Lemma empty_column_fails_witness :
  exists e,
    @analyze_patient_cohorts sample_engine "patients_large.csv"
      empty_glucose_disk
    = (<[parquet_file := ParquetFile empty_glucose_frame]> empty_glucose_disk,
       Err e) /\
    forall path, e <> FileNotFoundError path.
Proof.
  apply (@empty_column_fails sample_engine "patients_large.csv"
           empty_glucose_disk empty_glucose_frame).
  - reflexivity.
  - right. left. reflexivity.
Defined.

(** The report on [good_disk]: three of the four rows are in bounds. *)
Lemma main_reports_total_witness :
  exists lines,
    @main sample_engine good_disk
    = (delete parquet_file good_disk,
       Summary :: Table (@cohort_query sample_engine three_rows)
         :: TotalPatients 3 :: DetailedResults :: lines).
Proof.
  apply (@main_reports_total sample_engine good_disk good_frame);
    reflexivity.
Defined.

(** The report on an empty disk. *)
Lemma main_file_missing_witness :
  @main sample_engine (∅ : gmap string file)
  = (∅, [NotFound (FileNotFoundError "patients_large.csv"); PleaseEnsure]).
Proof.
  apply (@main_file_missing sample_engine ∅). reflexivity.
Defined.

(** The report on a file without BMI column. *)
Lemma main_swallows_failure_witness :
  @main sample_engine no_bmi_disk
  = (<[parquet_file := ParquetFile no_bmi_frame]> no_bmi_disk,
     [AnalysisError (Raised (ColumnNotFoundError "BMI"))]).
Proof.
  apply (@main_swallows_failure sample_engine no_bmi_disk no_bmi_frame);
    reflexivity.
Defined.

(** The details of the report on [good_disk] are in the order Normal,
    Obese, Underweight. *)
Lemma report_in_label_order_witness :
  NoDup (labels_printed (snd (@main sample_engine good_disk))) /\
  Sorted (fun a b => String.leb a b = true)
    (labels_printed (snd (@main sample_engine good_disk))).
Proof.
  destruct (@report_in_label_order sample_engine good_disk good_frame)
    as (_ & _ & Hnd & Hs); try reflexivity; [|split; assumption].
  intros r Hr _.
  repeat (apply elem_of_cons in Hr as [->|Hr]); [| | | |inversion Hr];
    split; discriminate.
Defined.

(** The report on the file whose rows of the label Normal have no Glucose
    value, while the column has a number in another row. *)
Lemma null_average_stops_report_witness :
  exists lines,
    snd (@main sample_engine null_glucose_disk)
    = lines ++ [AnalysisError FormatTypeError].
Proof.
  apply (@null_average_stops_report sample_engine null_glucose_disk
           null_glucose_frame "Normal"); try reflexivity.
  - discriminate.
  - left. reflexivity.
Defined.

End ReportSamples.

Section ScriptSamples.
Import Cleaner.

(** The script on an empty array. *)
Lemma main_no_data_witness :
  @main sample "data/raw/patients.json" empty_array_disk []
  = ([], [Msg "No patient data loaded."], Ok []).
Proof.
  apply (@main_no_data sample "data/raw/patients.json" empty_array_disk []
           (VList [])); reflexivity.
Defined.

(** Loading [john_disk] into the empty store makes the objects 0 to 3. *)
Lemma load_creates_objects_witness :
  [] = ([] : list script_line) /\
  exists news,
    fst (fst (load_patient_data "data/raw/patients.json" john_disk []))
    = [] ++ news /\
    objects [Obj 0; Obj 1; Obj 2; Obj 3] = seq 0 (length news) /\
    NoDup (objects [Obj 0; Obj 1; Obj 2; Obj 3]) /\
    Forall (fun d : dict => NoDup (map fst d)) news.
Proof.
  apply (load_creates_objects "data/raw/patients.json" john_disk []).
  vm_compute. reflexivity.
Defined.

(** The script on [john_disk] returns the first and the last record and
    prints the header and their two lines. *)
Lemma main_report_witness :
  exists lines,
    snd (fst (@main sample "data/raw/patients.json" john_disk []))
    = Msg "Cleaned Patient Data:" :: lines /\
    Forall2 (fun l line => exists d s n diagnosis,
               fst (fst (@main sample "data/raw/patients.json" john_disk []))
                 !! l = Some d /\
               dict_get (py "name") d = Some (VStr (@title sample s)) /\
               dict_get (py "age") d = Some (VInt n) /\ (18 <= n)%Z /\
               dict_get (py "diagnosis") d = Some diagnosis /\
               line = PatientLine (VStr (@title sample s)) (VInt n) diagnosis)
      [0; 3]%nat lines.
Proof.
  apply (@main_report sample "data/raw/patients.json" john_disk []
           (fst (fst (@main sample "data/raw/patients.json" john_disk [])))
           (snd (fst (@main sample "data/raw/patients.json" john_disk [])))
           [0; 3]%nat).
  vm_compute. reflexivity.
Defined.

(** The two records the script returns for [john_disk] are new objects
    and differ. *)
Lemma main_returns_distinct_witness :
  NoDup [0; 3]%nat /\
  (forall l, l ∈ [0; 3]%nat -> (length ([] : heap) <= l)%nat) /\
  (forall l, (l < length ([] : heap))%nat ->
     fst (fst (@main sample "data/raw/patients.json" john_disk [])) !! l
     = ([] : heap) !! l) /\
  (forall li lj di dj, li ∈ [0; 3]%nat -> lj ∈ [0; 3]%nat -> li <> lj ->
     fst (fst (@main sample "data/raw/patients.json" john_disk [])) !! li
     = Some di ->
     fst (fst (@main sample "data/raw/patients.json" john_disk [])) !! lj
     = Some dj ->
     ~ same_fields di dj).
Proof.
  apply (@main_returns_distinct sample "data/raw/patients.json" john_disk []
           (fst (fst (@main sample "data/raw/patients.json" john_disk [])))
           (snd (fst (@main sample "data/raw/patients.json" john_disk [])))
           [0; 3]%nat).
  vm_compute. reflexivity.
Defined.

(** The script on an array that holds an object and a number. *)
Lemma main_non_object_element_witness :
  exists h' e,
    @main sample "data/raw/patients.json" mixed_disk []
    = (h', [], Err (Exn e)).
Proof.
  apply (@main_non_object_element sample "data/raw/patients.json" mixed_disk
           [] [json_patient "john smith" (VInt 32) "male" "flu"; VInt 5]
           (VInt 5)).
  - reflexivity.
  - apply list_elem_of_further, list_elem_of_here.
  - discriminate.
Defined.


End ScriptSamples.
